(** * Mirror-aware definition resolution of the language service

    A shallow embedding of
      - [packages/language-service/lib/features/provideDefinition.ts]
        (the recursive search [withLinkedCode], the per-seed worker, the
        result projector and [toSourcePositionPreferSurroundedPosition]);
      - [packages/language-service/lib/languageService.ts]
        (the document cache [documents.get] and the embedded document
        addressing [encodeEmbeddedDocumentUri] / [decodeEmbeddedDocumentUri]).

    Mutable closures ([recursiveChecker], [result], the caches) are modelled
    by explicit state passing; the asynchronous analyzer call is an oracle on
    an abstract world; possible non-termination of the recursion is modelled
    with fuel.  A call of the uri library or of the percent-coding globals
    may throw: such a call has an [outcome], and a throw ends the search or
    the projection that made it. *)

From Stdlib Require Import Ascii String.
From stdpp Require Import base option list functions gmap sets fin_sets strings pretty.

(** ** Protocol data (vscode-languageserver-protocol) *)

Record Position := mkPosition { line : nat; character : nat }.

Record Range := mkRange { start : Position; end_ : Position }.

Record Location := mkLocation { loc_uri : string; loc_range : Range }.

Record LocationLink := mkLocationLink {
  originSelectionRange : option Range;
  targetUri : string;
  targetRange : Range;
  targetSelectionRange : Range;
}.

(** [TextDocument.create(uri, languageId, version, content)]. *)
Record TextDocument := mkTextDocument {
  uri : string;
  languageId : string;
  version : nat;
  text : string;
}.

#[global] Instance Position_eq_dec : EqDecision Position.
Proof. solve_decision. Defined.
#[global] Instance Range_eq_dec : EqDecision Range.
Proof. solve_decision. Defined.
#[global] Instance LocationLink_eq_dec : EqDecision LocationLink.
Proof. solve_decision. Defined.
#[global] Instance TextDocument_eq_dec : EqDecision TextDocument.
Proof. solve_decision. Defined.

(** ** The location set of [utils/dedupe] *)

Module dedupe.

(** Modelled from the spec: [createLocationSet] of [utils/dedupe], whose
    source is not part of this development.  The spec describes the Visited
    Set as "a set of (document-identifier, position) pairs"; the callers
    hand it a [Location], so an element is identified by its uri and the
    four coordinates of its range. *)
Abbreviation Key := (string * (nat * nat * (nat * nat)))%type.

Definition getKey (item : Location) : Key :=
  (loc_uri item,
   (line (start (loc_range item)), character (start (loc_range item)),
    (line (end_ (loc_range item)), character (end_ (loc_range item))))).

Abbreviation LocationSet := (gset Key).

Definition createLocationSet : LocationSet := ∅.

Definition has (s : LocationSet) (item : Location) : bool :=
  bool_decide (getKey item ∈ s).

Definition add (s : LocationSet) (item : Location) : LocationSet :=
  {[ getKey item ]} ∪ s.

End dedupe.

(** The argument [{ uri, range: { start: position, end: position } }] that
    the search hands to the location set. *)
Definition pointLocation (u : string) (p : Position) : Location :=
  mkLocation u (mkRange p p).

(** ** URIs (vscode-uri) and the percent-coding globals

    [vscode-uri] and the JavaScript globals [encodeURIComponent] /
    [decodeURIComponent] are libraries, not code of this repository: the
    development is parametric in them.  A [Uri] is the library's five
    components; [URI.from] fills a record with the components it is given
    and the empty string elsewhere. *)

Record Uri := mkUri {
  scheme : string;
  authority : string;
  path : string;
  query : string;
  fragment : string;
}.

#[global] Instance Uri_eq_dec : EqDecision Uri.
Proof. solve_decision. Defined.

(** A JavaScript call either returns a value or throws. *)
Inductive outcome (A : Type) : Type :=
  | Returned (a : A)
  | Raised.
Arguments Returned {A} a.
Arguments Raised {A}.

Definition bindOutcome {A B} (o : outcome A) (k : A -> outcome B) : outcome B :=
  match o with
  | Returned a => k a
  | Raised => Raised
  end.

Class UriApi := {
  (** [URI.parse(value)]; throws on a string that it does not accept as a
      uri (a scheme with illegal characters, a path that does not fit the
      authority) *)
  URI_parse : string -> outcome Uri;
  (** [uri.toString()] *)
  URI_toString : Uri -> string;
  (** [encodeURIComponent(s)]; throws [URIError] on a lone surrogate *)
  encodeURIComponent : string -> outcome string;
  (** [decodeURIComponent(s)]; throws [URIError] on a malformed escape *)
  decodeURIComponent : string -> outcome string;
}.

Definition URI_from (scheme' authority' path' : string) : Uri :=
  mkUri scheme' authority' path' "" "".

(** [s.substring(1)] *)
Definition substring1 (s : string) : string :=
  match s with
  | EmptyString => EmptyString
  | String _ rest => rest
  end.

(** ** [createLanguageService]: addressing and the document cache *)

Module languageService.

Definition embeddedContentScheme : string := "volar-embedded-content".

Section Addressing.
Context `{!UriApi}.

(** Returns [None] for JavaScript's [undefined]. *)
Definition decodeEmbeddedDocumentUri (maybeEmbeddedContentUri : Uri)
  : outcome (option (Uri * string)) :=
  if bool_decide (scheme maybeEmbeddedContentUri = embeddedContentScheme) then
    bindOutcome (decodeURIComponent (authority maybeEmbeddedContentUri))
      (fun embeddedCodeId =>
    bindOutcome (decodeURIComponent (substring1 (path maybeEmbeddedContentUri)))
      (fun documentUri =>
    bindOutcome (URI_parse documentUri)
      (fun parsed =>
    Returned (Some (parsed, embeddedCodeId)))))
  else Returned None.

Definition encodeEmbeddedDocumentUri (documentUri : Uri) (embeddedContentId : string)
  : outcome Uri :=
  bindOutcome (encodeURIComponent embeddedContentId) (fun authority' =>
  bindOutcome (encodeURIComponent (URI_toString documentUri)) (fun encoded =>
  Returned (URI_from embeddedContentScheme authority' ("/" ++ encoded)))).

End Addressing.

(** A script snapshot: an object, known by its identity, that yields its
    text ([snapshot.getText(0, snapshot.getLength())]). *)
Record IScriptSnapshot := mkSnapshot {
  snapshot_identity : positive;
  snapshot_text : string;
}.

(** The two closures of [createLanguageService] that [documents.get]
    reads and writes.  [documentVersions] is a [UriMap<number>];
    [snapshot2Doc] is a [WeakMap] keyed by the snapshot object, whose
    values are [UriMap<TextDocument>].  A [UriMap] files a uri under a
    string key. *)
Record Cache := mkCache {
  documentVersions : gmap string nat;
  snapshot2Doc : gmap positive (gmap string TextDocument);
}.

Definition emptyCache : Cache := mkCache ∅ ∅.

Section Documents.
Context `{!UriApi}.

(** The key under which a [UriMap] files a uri: [createUriMap] of
    [utils/uriMap] is taken as a parameter. *)
Variable toKey : Uri -> string.

Definition documents_get (c : Cache) (uri' : Uri) (languageId' : string)
    (snapshot : IScriptSnapshot) : TextDocument * Cache :=
  let key := toKey uri' in
  let c1 :=
    match snapshot2Doc c !! snapshot_identity snapshot with
    | Some _ => c
    | None => mkCache (documentVersions c)
                      (<[snapshot_identity snapshot := ∅]> (snapshot2Doc c))
    end in
  let map := default ∅ (snapshot2Doc c1 !! snapshot_identity snapshot) in
  match map !! key with
  | Some doc => (doc, c1)
  | None =>
      let version' := default 0 (documentVersions c1 !! key) in
      let doc := mkTextDocument (URI_toString uri') languageId' version'
                                (snapshot_text snapshot) in
      (doc,
       mkCache (<[key := version' + 1]> (documentVersions c1))
               (<[snapshot_identity snapshot := <[key := doc]> map]> (snapshot2Doc c1)))
  end.

(** A request to [documents.get]. *)
Record GetCall := mkGetCall {
  call_uri : Uri;
  call_languageId : string;
  call_snapshot : IScriptSnapshot;
}.

(** Runs a sequence of requests and collects the documents returned. *)
Fixpoint getAll (c : Cache) (calls : list GetCall) : list TextDocument * Cache :=
  match calls with
  | [] => ([], c)
  | k :: rest =>
      let '(doc, c1) := documents_get c (call_uri k) (call_languageId k) (call_snapshot k) in
      let '(docs, c2) := getAll c1 rest in
      (doc :: docs, c2)
  end.

End Documents.

End languageService.

(** ** The definition resolver ([features/provideDefinition.ts]) *)

(** The wrapped maps of [documents.ts], as far as the resolver uses them. *)
Record LinkedCodeMapWithDocument := mkLinkedCodeMap {
  lcm_document : TextDocument;
  getLinkedCodePositions : Position -> list Position;
}.

Record SourceMapWithDocuments := mkSourceMap {
  sourceDocument : TextDocument;
  getSourceRange : Range -> option Range;
  getSourceRanges : Range -> list Range;
}.

(** [SourceScript] of the language core: [generated?.embeddedCodes] is a
    [Map] from embedded code ids to virtual codes. *)
Record SourceScript (VirtualCode : Type) := mkSourceScript {
  id : Uri;
  generated : option (gmap string VirtualCode);
}.
Arguments mkSourceScript {VirtualCode} _ _.
Arguments id {VirtualCode} _.
Arguments generated {VirtualCode} _.

(** The part of [LanguageServiceContext] that the resolver reads.
    [decodeEmbeddedDocumentUri] answers with a pair, gives [undefined]
    ([None]) or throws.  The script table and the two wrapped-map lookups
    stand for calls that answer: what they answer is a parameter. *)
Record LanguageServiceContext (VirtualCode : Type) := mkContext {
  scripts_get : Uri -> option (SourceScript VirtualCode);
  documents_getLinkedCodeMap : VirtualCode -> Uri -> option LinkedCodeMapWithDocument;
  documents_getSourceMap : VirtualCode -> SourceMapWithDocuments;
  decodeEmbeddedDocumentUri : Uri -> outcome (option (Uri * string));
}.
Arguments mkContext {VirtualCode} _ _ _ _.
Arguments scripts_get {VirtualCode} _ _.
Arguments documents_getLinkedCodeMap {VirtualCode} _ _ _.
Arguments documents_getSourceMap {VirtualCode} _ _.
Arguments decodeEmbeddedDocumentUri {VirtualCode} _ _.

Inductive ApiName := provideDefinition | provideTypeDefinition | provideImplementation.

#[global] Instance ApiName_eq_dec : EqDecision ApiName.
Proof. solve_decision. Defined.

(** An analyzer [api(document, position, token)] is awaited: while it runs
    the world moves on (the client may signal the token), so it is an oracle
    from the world at the call to its answer and the world at its return.
    [api?.(...) ?? []]: an [undefined] answer is the empty list. *)
Definition Analyzer (World : Type) : Type :=
  TextDocument -> Position -> World -> list LocationLink * World.

(** A plugin instance, [plugin[1]]: each entry of the definition family is
    optional. *)
Record LanguageServicePluginInstance (World : Type) := mkPluginInstance {
  plugin_provideDefinition : option (Analyzer World);
  plugin_provideTypeDefinition : option (Analyzer World);
  plugin_provideImplementation : option (Analyzer World);
}.
Arguments mkPluginInstance {World} _ _ _.
Arguments plugin_provideDefinition {World} _.
Arguments plugin_provideTypeDefinition {World} _.
Arguments plugin_provideImplementation {World} _.

(** [plugin[1][apiName]] *)
Definition pluginApi {World} (plugin : LanguageServicePluginInstance World)
    (apiName : ApiName) : option (Analyzer World) :=
  match apiName with
  | provideDefinition => plugin_provideDefinition plugin
  | provideTypeDefinition => plugin_provideTypeDefinition plugin
  | provideImplementation => plugin_provideImplementation plugin
  end.

(** The state threaded through one seed's search: the world, the two
    closures [recursiveChecker] and [result], and, as a ghost field, the
    analyzer invocations made so far (document uri and position). *)
Record SearchState (World : Type) := mkSearchState {
  world : World;
  recursiveChecker : dedupe.LocationSet;
  result : list LocationLink;
  invoked : list (string * Position);
}.
Arguments mkSearchState {World} _ _ _ _.
Arguments world {World} _.
Arguments recursiveChecker {World} _.
Arguments result {World} _.
Arguments invoked {World} _.

Section Resolver.
Context {VirtualCode World : Type} `{!UriApi}.

(** The arguments of [register], the request's token and the plugin the
    feature worker is running. *)
Variable context : LanguageServiceContext VirtualCode.
Variable apiName : ApiName.
Variable isCancellationRequested : World -> bool.
Variable plugin : LanguageServicePluginInstance World.

(** How a call of the search ends: it returns ([Returned]) or it throws
    ([Raised]); either way it leaves the closures and the world in some
    state.  [None] is for the fuel. *)
Definition Ended (A : Type) : Type := option (outcome A * SearchState World).

(** The recursive call, as seen from the loops. *)
Definition Search : Type :=
  TextDocument -> Position -> option LocationLink -> SearchState World -> Ended unit.

(** [context.decodeEmbeddedDocumentUri(URI.parse(targetUri))]: either call
    may throw. *)
Definition decodedTarget (targetUri' : string) : outcome (option (Uri * string)) :=
  bindOutcome (URI_parse targetUri') (decodeEmbeddedDocumentUri context).

(** [decoded && context.language.scripts.get(decoded[0])] and
    [decoded && sourceScript?.generated?.embeddedCodes.get(decoded[1])]. *)
Definition sourceScriptOf (targetUri' : string)
  : outcome (option (SourceScript VirtualCode)) :=
  bindOutcome (decodedTarget targetUri') (fun decoded =>
  Returned (decoded' ← decoded; scripts_get context decoded'.1)).

Definition virtualCodeOf (targetUri' : string) : outcome (option VirtualCode) :=
  bindOutcome (decodedTarget targetUri') (fun decoded =>
  Returned (decoded' ← decoded;
            sourceScript ← scripts_get context decoded'.1;
            embeddedCodes ← generated sourceScript;
            embeddedCodes !! decoded'.2)).

Definition linkedCodeMapOf (definition : LocationLink)
  : outcome (option LinkedCodeMapWithDocument) :=
  bindOutcome (virtualCodeOf (targetUri definition)) (fun virtualCode =>
  bindOutcome (sourceScriptOf (targetUri definition)) (fun sourceScript =>
  Returned
    match virtualCode, sourceScript with
    | Some virtualCode', Some sourceScript' =>
        documents_getLinkedCodeMap context virtualCode' (id sourceScript')
    | _, _ => None
    end)).

(** [recursiveChecker.add(...)] on the state. *)
Definition mark (u : string) (p : Position) (st : SearchState World) : SearchState World :=
  mkSearchState (world st)
                (dedupe.add (recursiveChecker st) (pointLocation u p))
                (result st) (invoked st).

(** [result.push(link)] on the state. *)
Definition push (link : LocationLink) (st : SearchState World) : SearchState World :=
  mkSearchState (world st) (recursiveChecker st) (result st ++ [link]) (invoked st).

(** What a terminal candidate contributes: with an inherited origin,
    [{ ...definition, originSelectionRange: originDefinition.originSelectionRange }],
    else the candidate itself. *)
Definition terminalLink (definition : LocationLink) (originDefinition : option LocationLink)
  : LocationLink :=
  match originDefinition with
  | Some origin =>
      mkLocationLink (originSelectionRange origin) (targetUri definition)
                     (targetRange definition) (targetSelectionRange definition)
  | None => definition
  end.

(** The loop over [linkedCodeMap.getLinkedCodePositions(...)]; the boolean
    is [foundMirrorPosition].  A recursive call that throws ends the loop. *)
Fixpoint forLinkedPositions (search : Search) (linkedCodeMap : LinkedCodeMapWithDocument)
    (origin : LocationLink) (positions : list Position)
    (foundMirrorPosition : bool) (st : SearchState World)
  : Ended bool :=
  match positions with
  | [] => Some (Returned foundMirrorPosition, st)
  | linkedPos :: rest =>
      if dedupe.has (recursiveChecker st)
           (pointLocation (uri (lcm_document linkedCodeMap)) linkedPos)
      then forLinkedPositions search linkedCodeMap origin rest foundMirrorPosition st
      else
        match search (lcm_document linkedCodeMap) linkedPos (Some origin) st with
        | Some (Returned _, st') =>
            forLinkedPositions search linkedCodeMap origin rest true st'
        | Some (Raised, st') => Some (Raised, st')
        | None => None
        end
  end.

(** The part of the loop body up to the end of [if (linkedCodeMap) {...}]:
    the target is marked, then the linked-code map is looked up, which may
    throw. *)
Definition followMirrors (search : Search) (originDefinition : option LocationLink)
    (definition : LocationLink) (st : SearchState World)
  : Ended bool :=
  let st1 := mark (targetUri definition) (start (targetRange definition)) st in
  match linkedCodeMapOf definition with
  | Returned (Some linkedCodeMap) =>
      forLinkedPositions search linkedCodeMap (default definition originDefinition)
        (getLinkedCodePositions linkedCodeMap (start (targetSelectionRange definition)))
        false st1
  | Returned None => Some (Returned false, st1)
  | Raised => Some (Raised, st1)
  end.

(** One iteration of [for (const definition of definitions)]. *)
Definition forDefinition (search : Search) (originDefinition : option LocationLink)
    (definition : LocationLink) (st : SearchState World)
  : Ended unit :=
  match followMirrors search originDefinition definition st with
  | Some (Returned foundMirrorPosition, st2) =>
      if foundMirrorPosition then Some (Returned (), st2)
      else Some (Returned (), push (terminalLink definition originDefinition) st2)
  | Some (Raised, st2) => Some (Raised, st2)
  | None => None
  end.

Fixpoint forDefinitions (search : Search) (originDefinition : option LocationLink)
    (definitions : list LocationLink) (st : SearchState World)
  : Ended unit :=
  match definitions with
  | [] => Some (Returned (), st)
  | definition :: rest =>
      match forDefinition search originDefinition definition st with
      | Some (Returned _, st') => forDefinitions search originDefinition rest st'
      | Some (Raised, st') => Some (Raised, st')
      | None => None
      end
  end.

(** [await api(document, position, token)]: the oracle runs on the world
    and the invocation is recorded. *)
Definition invoke (api : Analyzer World) (document : TextDocument) (position : Position)
    (st : SearchState World) : list LocationLink * SearchState World :=
  let '(definitions, w) := api document position (world st) in
  (definitions,
   mkSearchState w (recursiveChecker st) (result st)
                 (invoked st ++ [(uri document, position)])).

(** [withLinkedCode].  The recursion of the source is not structural; the
    fuel bounds its depth and [None] means the fuel ran out. *)
Fixpoint withLinkedCode (fuel : nat) (document : TextDocument) (position : Position)
    (originDefinition : option LocationLink) (st : SearchState World)
  : Ended unit :=
  match fuel with
  | O => None
  | S fuel' =>
      match pluginApi plugin apiName with
      | None => Some (Returned (), st)
      | Some api =>
          if dedupe.has (recursiveChecker st) (pointLocation (uri document) position)
          then Some (Returned (), st)
          else
            let st1 := mark (uri document) position st in
            let '(definitions, st2) := invoke api document position st1 in
            forDefinitions (withLinkedCode fuel') originDefinition definitions st2
      end
  end.

(** What one run of the feature worker's callback hands back: its return
    value ([None] for [undefined]) or [Raised] when the search threw, the
    world it leaves and the analyzer invocations it made. *)
Record WorkerRun := mkWorkerRun {
  returned : outcome (option (list LocationLink));
  finalWorld : World;
  analyzerCalls : list (string * Position);
}.

(** The callback [async (plugin, document, position) => ...] given to
    [languageFeatureWorker]. *)
Definition worker (fuel : nat) (document : TextDocument) (position : Position)
    (w : World) : option WorkerRun :=
  if isCancellationRequested w then Some (mkWorkerRun (Returned None) w [])
  else
    match withLinkedCode fuel document position None
            (mkSearchState w dedupe.createLocationSet [] []) with
    | Some (Returned _, st) =>
        Some (mkWorkerRun (Returned (Some (result st))) (world st) (invoked st))
    | Some (Raised, st) => Some (mkWorkerRun Raised (world st) (invoked st))
    | None => None
    end.

End Resolver.

(** ** The result projector *)

(** The test of [toSourcePositionPreferSurroundedPosition]: the range
    starts at or before the position and ends at or after it. *)
Definition surrounds (range : Range) (position : Position) : bool :=
  ((line (start range) <? line position)
   || ((line (start range) =? line position)
       && (character (start range) <=? character position)))
  &&
  ((line position <? line (end_ range))
   || ((line (end_ range) =? line position)
       && (character position <=? character (end_ range)))).

(** The loop [for (const range of map.getSourceRanges(mappedRange))], with
    the local [result]. *)
Fixpoint preferSurrounded (ranges : list Range) (position : Position)
    (result' : option Range) : option Range :=
  match ranges with
  | [] => result'
  | range :: rest =>
      let result'' := match result' with
                      | None => Some range
                      | Some _ => result'
                      end in
      if surrounds range position then Some range
      else preferSurrounded rest position result''
  end.

Definition toSourcePositionPreferSurroundedPosition (map : SourceMapWithDocuments)
    (mappedRange : Range) (position : Position) : option Range :=
  preferSurrounded (getSourceRanges map mappedRange) position None.

Definition zeroRange : Range := mkRange (mkPosition 0 0) (mkPosition 0 0).

(** Link objects are known by an address and live in a store. *)
Abbreviation Store := (positive -> LocationLink).

Section Projector.
Context {VirtualCode : Type} `{!UriApi}.

Variable context : LanguageServiceContext VirtualCode.
Variable apiName : ApiName.
(** The request's [uri] and [position]. *)
Variable uri' : Uri.
Variable position : Position.

(** The first block of the callback: [None] is the early [return;]. *)
Definition refineOrigin (map : option SourceMapWithDocuments) (link : LocationLink)
  : option LocationLink :=
  match originSelectionRange link, map with
  | Some origin, Some map' =>
      match toSourcePositionPreferSurroundedPosition map' origin position with
      | None => None
      | Some originSelectionRange' =>
          Some (mkLocationLink (Some originSelectionRange') (targetUri link)
                               (targetRange link) (targetSelectionRange link))
      end
  | _, _ => Some link
  end.

(** The rest of the callback, from [const decoded = ...] on; the lookup
    of the target's virtual code may throw. *)
Definition projectTarget (link : LocationLink) : outcome (option LocationLink) :=
  bindOutcome (virtualCodeOf context (targetUri link)) (fun targetVirtualFile' =>
  Returned
  match targetVirtualFile' with
  | Some targetVirtualFile =>
      let targetSourceMap := documents_getSourceMap context targetVirtualFile in
      match getSourceRange targetSourceMap (targetSelectionRange link) with
      | Some targetSelectionRange' =>
          let targetRange' := getSourceRange targetSourceMap (targetRange link) in
          Some (mkLocationLink (originSelectionRange link)
                               (uri (sourceDocument targetSourceMap))
                               (default targetSelectionRange' targetRange')
                               targetSelectionRange')
      | None =>
          if bool_decide (apiName = provideDefinition) then
            let targetMap := documents_getSourceMap context targetVirtualFile in
            if bool_decide (uri (sourceDocument targetMap) ≠ URI_toString uri') then
              Some (mkLocationLink (originSelectionRange link)
                                   (uri (sourceDocument targetMap))
                                   zeroRange zeroRange)
            else None
          else Some link
      end
  | None => Some link
  end).

(** The callback of [data.map(link => ...)], for one link object: what it
    returns, where a link that it returns stands for the object as the
    callback leaves it (the assignments of the source are made to the
    object itself) or, for the stub, for a new object. *)
Definition projectLink (map : option SourceMapWithDocuments) (link : LocationLink)
  : outcome (option LocationLink) :=
  match refineOrigin map link with
  | Some link' => projectTarget link'
  | None => Returned None
  end.


(** [(data, map) => data.map(...).filter(notEmpty)] on links that are
    distinct objects; a callback that throws ends the projection. *)
Fixpoint project (data : list LocationLink) (map : option SourceMapWithDocuments)
  : outcome (list LocationLink) :=
  match data with
  | [] => Returned []
  | link :: rest =>
      bindOutcome (projectLink map link) (fun projected =>
      bindOutcome (project rest map) (fun others =>
      Returned (option_list projected ++ others)))
  end.

(** *** The projector on link objects

    The links of [data] are objects, and the callback assigns to the
    object it is handed (lines 104 and 118-121 of the source); an object
    that occurs twice in [data] is handed to the callback twice. *)




End Projector.



(** ** Notions used to state the properties *)


Section ResolverNotions.
Context {VirtualCode World : Type} `{!UriApi}.
Variable context : LanguageServiceContext VirtualCode.

(** Whether the candidate has a mirror position that is not in the set of
    the given state; asking throws when the lookup of the map does. *)
Definition hasUnvisitedMirror (definition : LocationLink) (st : SearchState World)
  : outcome bool :=
  bindOutcome (linkedCodeMapOf context definition) (fun linkedCodeMap' =>
  Returned
    match linkedCodeMap' with
    | Some linkedCodeMap =>
        existsb (fun linkedPos =>
                   negb (dedupe.has (recursiveChecker st)
                           (pointLocation (uri (lcm_document linkedCodeMap)) linkedPos)))
                (getLinkedCodePositions linkedCodeMap
                   (start (targetSelectionRange definition)))
    | None => false
    end).

(** A recursive call that refuses to run (fails) unless the given location
    is already in the set when it is entered. *)
Definition enteredWith (item : Location) (search : @Search World) : @Search World :=
  fun document position originDefinition st =>
    if dedupe.has (recursiveChecker st) item
    then search document position originDefinition st
    else None.

(** A later state of the same search: the set has grown, the results and
    the analyzer invocations have been appended to. *)
Definition extends (st st' : SearchState World) : Prop :=
  recursiveChecker st ⊆ recursiveChecker st'
  /\ result st `prefix_of` result st'
  /\ invoked st `prefix_of` invoked st'.

(** A recursive call that only ever moves to a later state. *)
Definition progressive (search : @Search World) : Prop :=
  forall document position originDefinition st ending st',
    search document position originDefinition st = Some (ending, st') -> extends st st'.

End ResolverNotions.

(** ** A small setting to run the code in

    A stand-in for the uri library on plain [scheme://authority/path]
    strings and byte-wise percent-coding, and the documents, maps and
    analyzers of the scenarios that the properties below are tried on. *)

Module Scenario.

(** *** Percent-coding and uris *)

Definition hexDigit (n : nat) : ascii :=
  ascii_of_nat (if n <? 10 then 48 + n else 55 + n).

Definition hexValue (c : ascii) : option nat :=
  let n := nat_of_ascii c in
  if (48 <=? n) && (n <=? 57) then Some (n - 48)
  else if (65 <=? n) && (n <=? 70) then Some (n - 55)
  else if (97 <=? n) && (n <=? 102) then Some (n - 87)
  else None.

(** The characters [encodeURIComponent] leaves alone:
    [A-Z a-z 0-9 - _ . ! ~ * ' ( )]. *)
Definition isUnreserved (c : ascii) : bool :=
  let n := nat_of_ascii c in
  ((65 <=? n) && (n <=? 90)) || ((97 <=? n) && (n <=? 122))
  || ((48 <=? n) && (n <=? 57))
  || bool_decide (n ∈ [45; 95; 46; 33; 126; 42; 39; 40; 41]).

Definition percentEncodeChar (c : ascii) : string :=
  if isUnreserved c then String c EmptyString
  else String "%" (String (hexDigit (nat_of_ascii c / 16))
                     (String (hexDigit (nat_of_ascii c mod 16)) EmptyString)).

Fixpoint percentEncode (s : string) : string :=
  match s with
  | EmptyString => EmptyString
  | String c rest => percentEncodeChar c +:+ percentEncode rest
  end.

Fixpoint percentDecode (s : string) : outcome string :=
  match s with
  | EmptyString => Returned EmptyString
  | String "%" (String h (String l rest)) =>
      match hexValue h, hexValue l with
      | Some x, Some y =>
          bindOutcome (percentDecode rest)
            (fun decoded => Returned (String (ascii_of_nat (16 * x + y)) decoded))
      | _, _ => Raised
      end
  | String "%" _ => Raised
  | String c rest =>
      bindOutcome (percentDecode rest) (fun decoded => Returned (String c decoded))
  end.

(** Splits at the first occurrence of [c]; the second part, when there is
    one, starts after it. *)
Fixpoint splitAt (c : ascii) (s : string) : string * option string :=
  match s with
  | EmptyString => (EmptyString, None)
  | String a rest =>
      if bool_decide (a = c) then (EmptyString, Some rest)
      else let '(before, after) := splitAt c rest in (String a before, after)
  end.

Definition printUri (u : Uri) : string :=
  scheme u +:+ "://" +:+ authority u +:+ path u.

(** The characters of a scheme: letters, digits, [_ + . -]. *)
Definition isSchemeChar (c : ascii) : bool :=
  let n := nat_of_ascii c in
  ((65 <=? n) && (n <=? 90)) || ((97 <=? n) && (n <=? 122))
  || ((48 <=? n) && (n <=? 57))
  || bool_decide (n ∈ [95; 43; 46; 45]).

Fixpoint isScheme (s : string) : bool :=
  match s with
  | EmptyString => true
  | String c rest => isSchemeChar c && isScheme rest
  end.

(** A string without a scheme is read as a [file] path; a scheme with
    another character makes the parser throw. *)
Definition parseUri (s : string) : outcome Uri :=
  match splitAt ":" s with
  | (scheme', Some after) =>
      if isScheme scheme' then
        Returned
          match after with
          | String "/" (String "/" rest) =>
              match splitAt "/" rest with
              | (authority', Some path') =>
                  mkUri scheme' authority' (String "/" path') "" ""
              | (authority', None) => mkUri scheme' authority' "" "" ""
              end
          | _ => mkUri scheme' "" after "" ""
          end
      else Raised
  | (rest, None) => Returned (mkUri "file" "" rest "" "")
  end.

Definition plainUriApi : UriApi := {|
  URI_parse := parseUri;
  URI_toString := printUri;
  encodeURIComponent := fun s => Returned (percentEncode s);
  decodeURIComponent := percentDecode;
|}.

(** [vscode-uri] prints the authority of a uri in lower case; a stand-in
    that does so. *)
Definition lowerCaseChar (c : ascii) : ascii :=
  let n := nat_of_ascii c in
  if (65 <=? n) && (n <=? 90) then ascii_of_nat (n + 32) else c.

Fixpoint lowerCase (s : string) : string :=
  match s with
  | EmptyString => EmptyString
  | String c rest => String (lowerCaseChar c) (lowerCase rest)
  end.

Definition printUriLowerCase (u : Uri) : string :=
  scheme u +:+ "://" +:+ lowerCase (authority u) +:+ path u.

Definition lowerCasingUriApi : UriApi := {|
  URI_parse := parseUri;
  URI_toString := printUriLowerCase;
  encodeURIComponent := fun s => Returned (percentEncode s);
  decodeURIComponent := percentDecode;
|}.

#[local] Existing Instance plainUriApi.

(** *** Documents *)

(** The queried source file [T], another source file [O], and their
    generated documents with embedded code id [ts]. *)
Definition T : Uri := mkUri "file" "" "/T.vue" "" "".
Definition O : Uri := mkUri "file" "" "/My Dir/Other.vue" "" "".

Definition embeddedUriString (source : Uri) (embeddedId : string) : string :=
  match languageService.encodeEmbeddedDocumentUri source embeddedId with
  | Returned embedded => URI_toString embedded
  | Raised => EmptyString
  end.

Definition Tgen : TextDocument :=
  mkTextDocument (embeddedUriString T "ts") "typescript" 0 "".
Definition Ogen : TextDocument :=
  mkTextDocument (embeddedUriString O "ts") "typescript" 0 "".
Definition Tdoc : TextDocument := mkTextDocument (URI_toString T) "vue" 0 "".
Definition Odoc : TextDocument := mkTextDocument (URI_toString O) "vue" 0 "".

Definition pos (l c : nat) : Position := mkPosition l c.
Definition span (l1 c1 l2 c2 : nat) : Range := mkRange (pos l1 c1) (pos l2 c2).

(** *** Coordinate maps *)

(** The source map of [T.gen]: the span the analyzer matched at the seed
    has two source counterparts, the second of which surrounds the queried
    position [T:(5,3)]; the declaration at [(45,1)] maps to
    [T:(1,8)-(1,14)]; nothing else maps. *)
Definition TgenSourceMap : SourceMapWithDocuments := {|
  sourceDocument := Tdoc;
  getSourceRange := fun range =>
    if bool_decide (range = span 45 1 45 5) then Some (span 1 8 1 14) else None;
  getSourceRanges := fun range =>
    if bool_decide (range = span 20 8 20 14) then [span 9 0 9 6; span 5 1 5 7]
    else if bool_decide (range = span 45 1 45 5) then [span 1 8 1 14]
    else [];
|}.

(** The source map of [O.gen] maps nothing. *)
Definition OgenSourceMap : SourceMapWithDocuments := {|
  sourceDocument := Odoc;
  getSourceRange := fun _ => None;
  getSourceRanges := fun _ => [];
|}.

(** [(2,5)] mirrors [(45,1)], which has no further mirrors. *)
Definition oneWayMirrors : LinkedCodeMapWithDocument := {|
  lcm_document := Tgen;
  getLinkedCodePositions := fun p =>
    if bool_decide (p = pos 2 5) then [pos 45 1] else [];
|}.

(** [(2,5)] mirrors [(45,1)] and [(45,1)] mirrors [(2,5)]. *)
Definition cyclicMirrors : LinkedCodeMapWithDocument := {|
  lcm_document := Tgen;
  getLinkedCodePositions := fun p =>
    if bool_decide (p = pos 2 5) then [pos 45 1]
    else if bool_decide (p = pos 45 1) then [pos 2 5]
    else [];
|}.

(** Virtual codes are named by the uri string of their source. *)
Definition scripts (u : Uri) : option (SourceScript string) :=
  if bool_decide (u = T) then Some (mkSourceScript T (Some {["ts" := URI_toString T]}))
  else if bool_decide (u = O) then Some (mkSourceScript O (Some {["ts" := URI_toString O]}))
  else None.

Definition sourceMaps (virtualCode : string) : SourceMapWithDocuments :=
  if bool_decide (virtualCode = URI_toString T) then TgenSourceMap else OgenSourceMap.

Definition contextWith (mirrors : LinkedCodeMapWithDocument)
  : LanguageServiceContext string := {|
  scripts_get := scripts;
  documents_getLinkedCodeMap := fun virtualCode _ =>
    if bool_decide (virtualCode = URI_toString T) then Some mirrors else None;
  documents_getSourceMap := sourceMaps;
  decodeEmbeddedDocumentUri := languageService.decodeEmbeddedDocumentUri;
|}.

Definition context : LanguageServiceContext string := contextWith oneWayMirrors.
Definition cyclicContext : LanguageServiceContext string := contextWith cyclicMirrors.

(** *** Candidates and analyzers *)

(** The seed's candidate: matched span [(20,8)-(20,14)], declaration
    [(2,0)-(2,20)] named at [(2,5)-(2,9)]. *)
Definition C1 : LocationLink :=
  mkLocationLink (Some (span 20 8 20 14)) (uri Tgen) (span 2 0 2 20) (span 2 5 2 9).

(** The candidate found at the mirror: declaration [(45,0)-(45,9)] named
    at [(45,1)-(45,5)]. *)
Definition C2 : LocationLink :=
  mkLocationLink (Some (span 45 1 45 5)) (uri Tgen) (span 45 0 45 9) (span 45 1 45 5).

(** A candidate in [O.gen], with and without an origin range. *)
Definition C3 : LocationLink :=
  mkLocationLink None (uri Ogen) (span 7 0 7 30) (span 7 4 7 9).
Definition C4 : LocationLink :=
  mkLocationLink (Some (span 30 0 30 4)) (uri Ogen) (span 7 0 7 30) (span 7 4 7 9).

Definition answers (position : Position) : list LocationLink :=
  if bool_decide (position = pos 20 10) then [C1]
  else if bool_decide (position = pos 45 1) then [C2]
  else if bool_decide (position = pos 2 5) then [C1]
  else [].

(** The world is the token's flag.  [analyzer] leaves it alone; while
    [slowAnalyzer] runs, the client signals the token. *)
Definition analyzer : Analyzer bool := fun _ position w => (answers position, w).

Definition pluginWith (api : Analyzer bool) : LanguageServicePluginInstance bool :=
  mkPluginInstance (Some api) (Some api) None.

Definition plugin : LanguageServicePluginInstance bool := pluginWith analyzer.

Definition isCancellationRequested (w : bool) : bool := w.

Definition emptyState (w : bool) : SearchState bool :=
  mkSearchState w dedupe.createLocationSet [] [].

(** The state in which the candidate loop of the seed's call starts. *)
Definition afterSeedCall (w : bool) : SearchState bool :=
  mkSearchState w
    (dedupe.add dedupe.createLocationSet (pointLocation (uri Tgen) (pos 20 10)))
    [] [(uri Tgen, pos 20 10)].

(** The state in which the search call at the mirror [(45,1)] is entered. *)
Definition atMirrorCall (w : bool) : SearchState bool :=
  mark (uri Tgen) (pos 2 0) (afterSeedCall w).

(** The state in which the seed's iteration for [C1] ends when the
    mirrors are [oneWayMirrors]. *)
Definition afterC1 : SearchState bool :=
  mkSearchState false
    (dedupe.add
       (dedupe.add
          (dedupe.add
             (dedupe.add dedupe.createLocationSet (pointLocation (uri Tgen) (pos 20 10)))
             (pointLocation (uri Tgen) (pos 2 0)))
          (pointLocation (uri Tgen) (pos 45 1)))
       (pointLocation (uri Tgen) (pos 45 0)))
    [mkLocationLink (Some (span 20 8 20 14)) (uri Tgen) (span 45 0 45 9) (span 45 1 45 5)]
    [(uri Tgen, pos 20 10); (uri Tgen, pos 45 1)].

(** The mirror positions that [cyclicMirrors] can produce. *)
Definition mirrorPairs : gset dedupe.Key :=
  {[ dedupe.getKey (pointLocation (uri Tgen) (pos 2 5));
     dedupe.getKey (pointLocation (uri Tgen) (pos 45 1)) ]}.

(** *** Requests to the document cache *)

Definition snapshotA := languageService.mkSnapshot 1 "a".
Definition snapshotB := languageService.mkSnapshot 2 "b".

Definition requests : list languageService.GetCall :=
  [ languageService.mkGetCall T "vue" snapshotA;
    languageService.mkGetCall O "vue" snapshotA;
    languageService.mkGetCall T "vue" snapshotB;
    languageService.mkGetCall T "vue" snapshotA ].

End Scenario.

(** ** [createLanguageService]: the wrapped maps of [context.documents] *)

Module documents.

(** The fields of a virtual code and of a source script that the cache
    reads. *)
Record VirtualCode := mkVirtualCode {
  vc_id : string;
  vc_languageId : string;
  vc_snapshot : languageService.IScriptSnapshot;
}.

Record Script := mkScript {
  script_id : Uri;
  script_languageId : string;
  script_snapshot : languageService.IScriptSnapshot;
}.

(** What [new SourceMapWithDocuments(sourceDocument, embeddedDocument, map,
    virtualCode)] and [new LinkedCodeMapWithDocument(document, map,
    virtualCode)] are built from; an underlying map of the language core is
    an object, known by its identity. *)
Record WrappedSourceMap := mkWrappedSourceMap {
  wrapped_sourceDocument : TextDocument;
  wrapped_embeddedDocument : TextDocument;
  wrapped_map : positive;
  wrapped_virtualCode : VirtualCode;
}.

Record WrappedLinkedCodeMap := mkWrappedLinkedCodeMap {
  linked_document : TextDocument;
  linked_map : positive;
  linked_virtualCode : VirtualCode;
}.

(** The closures of [createLanguageService] behind [context.documents]:
    the document cache and the two [WeakMap]s keyed by the underlying map. *)
Record Service := mkService {
  cache : languageService.Cache;
  map2DocMap : gmap positive WrappedSourceMap;
  mirrorMap2DocMirrorMap : gmap positive WrappedLinkedCodeMap;
}.

Definition emptyService : Service := mkService languageService.emptyCache ∅ ∅.

Section Wrappers.
Context `{!UriApi}.

Variable toKey : Uri -> string.

(** [context.language]: [maps.get], [scripts.fromVirtualCode] and
    [linkedCodeMaps.get]. *)
Variable maps_get : VirtualCode -> positive.
Variable scripts_fromVirtualCode : VirtualCode -> Script.
Variable linkedCodeMaps_get : VirtualCode -> option positive.

Definition getSourceMap (s : Service) (virtualCode : VirtualCode)
  : outcome (WrappedSourceMap * Service) :=
  let map := maps_get virtualCode in
  match map2DocMap s !! map with
  | Some result => Returned (result, s)
  | None =>
      let sourceScript := scripts_fromVirtualCode virtualCode in
      bindOutcome
        (languageService.encodeEmbeddedDocumentUri (script_id sourceScript)
           (vc_id virtualCode))
        (fun embeddedUri =>
           let '(sourceDocument', c1) :=
             languageService.documents_get toKey (cache s) (script_id sourceScript)
               (script_languageId sourceScript) (script_snapshot sourceScript) in
           let '(embeddedDocument, c2) :=
             languageService.documents_get toKey c1 embeddedUri
               (vc_languageId virtualCode) (vc_snapshot virtualCode) in
           let result := mkWrappedSourceMap sourceDocument' embeddedDocument map virtualCode in
           Returned (result,
                     mkService c2 (<[map := result]> (map2DocMap s))
                               (mirrorMap2DocMirrorMap s)))
  end.

(** [None] in the answer is [undefined]. *)
Definition getLinkedCodeMap (s : Service) (virtualCode : VirtualCode) (documentUri : Uri)
  : outcome (option WrappedLinkedCodeMap * Service) :=
  match linkedCodeMaps_get virtualCode with
  | Some map =>
      match mirrorMap2DocMirrorMap s !! map with
      | Some result => Returned (Some result, s)
      | None =>
          bindOutcome
            (languageService.encodeEmbeddedDocumentUri documentUri (vc_id virtualCode))
            (fun embeddedUri =>
               let '(document, c1) :=
                 languageService.documents_get toKey (cache s) embeddedUri
                   (vc_languageId virtualCode) (vc_snapshot virtualCode) in
               let result := mkWrappedLinkedCodeMap document map virtualCode in
               Returned (Some result,
                         mkService c1 (map2DocMap s)
                                   (<[map := result]> (mirrorMap2DocMirrorMap s))))
      end
  | None => Returned (None, s)
  end.

End Wrappers.

End documents.

(** ** [createLanguageService]: [context.inject] *)

(** A plugin instance as [inject] sees it: an object, known by its identity
    (the key of the [WeakSet] [disabledServicePlugins]), with an optional
    table [provide] of functions. *)
Record InjectablePlugin (Args Result : Type) := mkInjectablePlugin {
  instance_identity : positive;
  provide : option (gmap string (Args -> Result));
}.
Arguments mkInjectablePlugin {Args Result} _ _.
Arguments instance_identity {Args Result} _.
Arguments provide {Args Result} _.

(** [None] is the [undefined] of falling off the loop.  The elements of
    [plugins] are the second components, [plugin[1]], of [context.plugins]. *)
Fixpoint inject {Args Result : Type} (plugins : list (InjectablePlugin Args Result))
    (disabledServicePlugins : gset positive) (key : string) (args : Args)
  : option Result :=
  match plugins with
  | [] => None
  | plugin :: rest =>
      if bool_decide (instance_identity plugin ∈ disabledServicePlugins)
      then inject rest disabledServicePlugins key args
      else
        match provide plugin ≫= (fun table => table !! key) with
        | Some provide' => Some (provide' args)
        | None => inject rest disabledServicePlugins key args
        end
  end.

(** ** [createLanguageService]: [context.commands] *)

Module commands.

(** The values that occur as command arguments. *)
Record Selection := mkSelection {
  selectionStartLineNumber : nat;
  positionLineNumber : nat;
  selectionStartColumn : nat;
  positionColumn : nat;
}.

Inductive Argument :=
  | UriArgument (u : Uri)
  | PositionArgument (p : Position)
  | LocationsArgument (locations : list Location)
  | SelectionArgument (selection : Selection).

Record Command := mkCommand {
  title : string;
  command : string;
  arguments : list Argument;
}.

Definition rename_create (uri' : Uri) (position : Position) : Command :=
  mkCommand "" "editor.action.rename" [UriArgument uri'; PositionArgument position].

Definition rename_is (c : Command) : bool :=
  bool_decide (command c = "editor.action.rename").

(** [`${locations.length} references`] prints the length in decimal. *)
Definition showReferences_create (uri' : Uri) (position : Position)
    (locations : list Location) : Command :=
  mkCommand
    (if bool_decide (length locations = 1) then "1 reference"
     else pretty (length locations) +:+ " references")
    "editor.action.showReferences"
    [UriArgument uri'; PositionArgument position; LocationsArgument locations].

Definition showReferences_is (c : Command) : bool :=
  bool_decide (command c = "editor.action.showReferences").

Definition setSelection_create (position : Position) : Command :=
  mkCommand "" "setSelection"
    [SelectionArgument
       (mkSelection (line position + 1) (line position + 1)
                    (character position + 1) (character position + 1))].

Definition setSelection_is (c : Command) : bool :=
  bool_decide (command c = "setSelection").

End commands.

(** ** [createLanguageService]: the capability getters of the api *)

Record SemanticTokensLegend := mkLegend {
  tokenTypes : list string;
  tokenModifiers : list string;
}.

(** The optional parts of [plugin.capabilities] that the getters read. *)
Record SemanticTokensProvider := mkSemanticTokensProvider {
  legend : option SemanticTokensLegend;
}.

Record CompletionProvider := mkCompletionProvider {
  completion_triggerCharacters : option (list string);
}.

Record DocumentOnTypeFormattingProvider := mkDocumentOnTypeFormattingProvider {
  formatting_triggerCharacters : option (list string);
}.

Record SignatureHelpProvider := mkSignatureHelpProvider {
  signature_triggerCharacters : option (list string);
  signature_retriggerCharacters : option (list string);
}.

Record Capabilities := mkCapabilities {
  semanticTokensProvider : option SemanticTokensProvider;
  completionProvider : option CompletionProvider;
  documentOnTypeFormattingProvider : option DocumentOnTypeFormattingProvider;
  signatureHelpProvider : option SignatureHelpProvider;
}.

(** [[...new Set(values)]]: the values in the order in which they are first
    inserted. *)
Definition spreadSet (values : list string) : list string :=
  foldl (fun inserted value =>
           if bool_decide (value ∈ inserted) then inserted else inserted ++ [value])
        [] values.

(** [plugins.map(f).flat()] *)
Definition flatMap {A B : Type} (f : A -> list B) (plugins : list A) : list B :=
  concat (map f plugins).

Definition getSemanticTokenLegend (plugins : list Capabilities) : SemanticTokensLegend :=
  let tokenModifiers' :=
    flatMap (fun capabilities =>
               default [] (tokenModifiers <$> (semanticTokensProvider capabilities ≫= legend)))
            plugins in
  let tokenTypes' :=
    flatMap (fun capabilities =>
               default [] (tokenTypes <$> (semanticTokensProvider capabilities ≫= legend)))
            plugins in
  mkLegend (spreadSet tokenTypes') (spreadSet tokenModifiers').

Definition getTriggerCharacters (plugins : list Capabilities) : list string :=
  flatMap (fun capabilities =>
             default [] (completionProvider capabilities ≫= completion_triggerCharacters))
          plugins.

Definition getAutoFormatTriggerCharacters (plugins : list Capabilities) : list string :=
  flatMap (fun capabilities =>
             default [] (documentOnTypeFormattingProvider capabilities
                           ≫= formatting_triggerCharacters))
          plugins.

Definition getSignatureHelpTriggerCharacters (plugins : list Capabilities) : list string :=
  flatMap (fun capabilities =>
             default [] (signatureHelpProvider capabilities ≫= signature_triggerCharacters))
          plugins.

Definition getSignatureHelpRetriggerCharacters (plugins : list Capabilities) : list string :=
  flatMap (fun capabilities =>
             default [] (signatureHelpProvider capabilities ≫= signature_retriggerCharacters))
          plugins.

(** ** Fixtures for the wrapped maps, [inject] and the capability getters *)

Module ServiceScenario.
Import Scenario.

(** An analyzer whose candidates are all in [O.gen], which has no
    linked-code map. *)
Definition remoteAnalyzer : Analyzer bool := fun _ _ w => ([C3; C4], w).

(** A link into the source file [T] itself. *)
Definition plainLink : LocationLink :=
  mkLocationLink None "file:///T.vue" (span 1 8 1 14) (span 1 8 1 14).

(** An embedded uri whose path is not percent-encoded text, and a link
    that targets it. *)
Definition brokenUri : Uri := mkUri "volar-embedded-content" "ts" "/%ZZ" "" "".
Definition undecodableLink : LocationLink :=
  mkLocationLink None "volar-embedded-content://ts/%ZZ" (span 0 0 0 1) (span 0 0 0 1).

(** An analyzer whose second candidate has a target that does not decode. *)
Definition brokenAnalyzer : Analyzer bool := fun _ _ w => ([C3; undecodableLink; C1], w).

(** An embedded uri whose path decodes to [a b:x], which the parser does
    not accept: its scheme would be [a b]. *)
Definition unparsableUri : Uri :=
  mkUri "volar-embedded-content" "ts" "/a%20b%3Ax" "" "".

(** A uri with an upper-case authority, and what the lower-casing printer
    and the parser make of it. *)
Definition upperCaseUri : Uri := mkUri "http" "Example.COM" "/T.vue" "" "".
Definition lowerCaseUri : Uri := mkUri "http" "example.com" "/T.vue" "" "".


(** Two virtual code objects of the script [T] that reach the same source
    map [1]; only the first has a linked-code map, [2]. *)
Definition TgenCode : documents.VirtualCode :=
  documents.mkVirtualCode "ts" "typescript" snapshotB.
Definition TgenCodeAgain : documents.VirtualCode :=
  documents.mkVirtualCode "css" "css" snapshotB.
Definition Tscript : documents.Script := documents.mkScript T "vue" snapshotA.

Definition maps_get (_ : documents.VirtualCode) : positive := 1%positive.
Definition scripts_fromVirtualCode (_ : documents.VirtualCode) : documents.Script := Tscript.
Definition linkedCodeMaps_get (virtualCode : documents.VirtualCode) : option positive :=
  if bool_decide (documents.vc_id virtualCode = "ts") then Some 2%positive else None.

(** Three plugin instances: the first provides nothing, the second and the
    third provide [double]. *)
Definition injectables : list (InjectablePlugin nat nat) :=
  [ mkInjectablePlugin 1%positive None;
    mkInjectablePlugin 2%positive (Some {["double" := fun n => 2 * n]});
    mkInjectablePlugin 3%positive (Some {["double" := fun n => n + n + 1]}) ].

(** Two plugins with semantic token legends that overlap, and one without a
    provider. *)
Definition legendOf (types modifiers : list string) : Capabilities :=
  mkCapabilities (Some (mkSemanticTokensProvider (Some (mkLegend types modifiers))))
                 None None None.
Definition pluginCapabilities : list Capabilities :=
  [ legendOf ["class"; "variable"] ["readonly"];
    mkCapabilities None None None None;
    legendOf ["variable"; "function"] ["readonly"; "static"] ].

(** Two plugins that both complete on [.], the second of which also gives
    signature help. *)
Definition triggerCapabilities : list Capabilities :=
  [ mkCapabilities None (Some (mkCompletionProvider (Some ["."; "<"]))) None None;
    mkCapabilities None (Some (mkCompletionProvider None)) None None;
    mkCapabilities None (Some (mkCompletionProvider (Some ["."]))) None
                   (Some (mkSignatureHelpProvider (Some ["("]) None)) ].

End ServiceScenario.

(** * Properties *)

(** ** The location set *)

Lemma has_true (s : dedupe.LocationSet) item :
  dedupe.has s item = true <-> dedupe.getKey item ∈ s.
Proof. unfold dedupe.has. apply bool_decide_eq_true. Qed.

Lemma has_false (s : dedupe.LocationSet) item :
  dedupe.has s item = false <-> dedupe.getKey item ∉ s.
Proof. unfold dedupe.has. apply bool_decide_eq_false. Qed.

Lemma has_add (s : dedupe.LocationSet) item : dedupe.has (dedupe.add s item) item = true.
Proof. apply has_true. unfold dedupe.add. set_solver. Qed.

Lemma add_idem (s : dedupe.LocationSet) item :
  dedupe.add (dedupe.add s item) item = dedupe.add s item.
Proof. unfold dedupe.add. by rewrite (assoc_L (∪)), (idemp_L (∪)). Qed.

Lemma has_mono (s s' : dedupe.LocationSet) item :
  s ⊆ s' -> dedupe.has s item = true -> dedupe.has s' item = true.
Proof. rewrite !has_true. set_solver. Qed.

Lemma getKey_pointLocation_inj u p u' p' :
  dedupe.getKey (pointLocation u p) = dedupe.getKey (pointLocation u' p') ->
  u = u' /\ p = p'.
Proof.
  destruct p, p'. unfold dedupe.getKey, pointLocation. simpl.
  intros Heq. by simplify_eq.
Qed.

(** ** The recursive search *)

Section ResolverFacts.
Context {VirtualCode World : Type} `{!UriApi}.
Variable context : LanguageServiceContext VirtualCode.
Variable apiName : ApiName.
Variable plugin : LanguageServicePluginInstance World.

Abbreviation State := (SearchState World).
Abbreviation search := (withLinkedCode context apiName plugin).

#[local] Instance extends_preorder : PreOrder (@extends World).
Proof.
  split.
  - intros st. unfold extends. done.
  - intros a b c (?&?&?) (?&?&?). unfold extends.
    split_and!; etrans; eauto.
Qed.

Lemma extends_mark u p (st : State) : extends st (mark u p st).
Proof. unfold extends, mark, dedupe.add. simpl. split_and!; [set_solver|done|done]. Qed.

Lemma extends_push l (st : State) : extends st (push l st).
Proof.
  unfold extends, push. simpl. split_and!; [done| |done].
  by apply prefix_app_r.
Qed.

Lemma extends_invoke api document position (st : State) definitions st' :
  invoke api document position st = (definitions, st') -> extends st st'.
Proof.
  unfold invoke. destruct (api _ _ _) as [ds w]. intros [= <- <-].
  unfold extends. simpl. split_and!; [done|done|].
  by apply prefix_app_r.
Qed.

(** *** The lookups throw together *)

Lemma linkedCodeMapOf_raised definition :
  linkedCodeMapOf context definition = Raised
  <-> decodedTarget context (targetUri definition) = Raised.
Proof.
  unfold linkedCodeMapOf, virtualCodeOf, sourceScriptOf.
  by destruct (decodedTarget context (targetUri definition)).
Qed.


(** *** Every call moves to a later state, however it ends *)

Lemma forLinkedPositions_extends s lcm origin positions found (st : State) ending st' :
  progressive s ->
  forLinkedPositions s lcm origin positions found st = Some (ending, st') ->
  extends st st'.
Proof.
  intros Hs. revert found st.
  induction positions as [|q rest IH]; intros found st; simpl.
  - intros [= <- <-]. done.
  - destruct (dedupe.has _ _); [by apply IH|].
    destruct (s _ _ _ _) as [[[[]|] st1]|] eqn:E; [| |done].
    + intros Hrest. etrans; [by eapply Hs|by eapply IH].
    + intros [= <- <-]. by eapply Hs.
Qed.

Lemma followMirrors_extends s originDefinition definition (st : State) ending st' :
  progressive s ->
  followMirrors context s originDefinition definition st = Some (ending, st') ->
  extends st st'.
Proof.
  intros Hs. unfold followMirrors.
  destruct (linkedCodeMapOf _ _) as [[lcm|]|].
  - intros Hloop. etrans; [apply extends_mark|by eapply forLinkedPositions_extends].
  - intros [= <- <-]. apply extends_mark.
  - intros [= <- <-]. apply extends_mark.
Qed.

Lemma forDefinition_extends s originDefinition definition (st : State) ending st' :
  progressive s ->
  forDefinition context s originDefinition definition st = Some (ending, st') ->
  extends st st'.
Proof.
  intros Hs. unfold forDefinition.
  destruct (followMirrors _ _ _ _ _) as [[[found|] st2]|] eqn:E; [| |done].
  - apply followMirrors_extends in E; [|done].
    destruct found; intros [= <- <-]; [done|].
    etrans; [done|apply extends_push].
  - apply followMirrors_extends in E; [|done]. by intros [= <- <-].
Qed.

Lemma forDefinitions_extends s originDefinition definitions (st : State) ending st' :
  progressive s ->
  forDefinitions context s originDefinition definitions st = Some (ending, st') ->
  extends st st'.
Proof.
  intros Hs. revert st.
  induction definitions as [|d rest IH]; intros st; simpl.
  - intros [= <- <-]. done.
  - destruct (forDefinition _ _ _ _ _) as [[[[]|] st1]|] eqn:E; [| |done].
    + intros Hrest. etrans; [by eapply forDefinition_extends|by eapply IH].
    + intros [= <- <-]. by eapply forDefinition_extends.
Qed.

Lemma withLinkedCode_progressive fuel : progressive (search fuel).
Proof.
  induction fuel as [|fuel IH]; intros document position o st ending st'; simpl; [done|].
  destruct (pluginApi plugin apiName) as [api|]; [|by intros [= <- <-]].
  destruct (dedupe.has _ _); [by intros [= <- <-]|].
  destruct (invoke _ _ _ _) as [definitions st2] eqn:Einv.
  intros Hloop. etrans; [apply extends_mark|].
  etrans; [by eapply extends_invoke|].
  by eapply forDefinitions_extends.
Qed.

(** *** More fuel never changes an answer *)

Lemma forLinkedPositions_mono (s1 s2 : @Search World) lcm origin positions found st r :
  (forall d p o st r, s1 d p o st = Some r -> s2 d p o st = Some r) ->
  forLinkedPositions s1 lcm origin positions found st = Some r ->
  forLinkedPositions s2 lcm origin positions found st = Some r.
Proof.
  intros Hs. revert found st.
  induction positions as [|q rest IH]; intros found st; simpl; [done|].
  destruct (dedupe.has _ _); [by apply IH|].
  destruct (s1 _ _ _ _) as [[[[]|] st1]|] eqn:E; [| |done];
    rewrite (Hs _ _ _ _ _ E); [by apply IH|done].
Qed.

Lemma forDefinition_mono (s1 s2 : @Search World) originDefinition definition st r :
  (forall d p o st r, s1 d p o st = Some r -> s2 d p o st = Some r) ->
  forDefinition context s1 originDefinition definition st = Some r ->
  forDefinition context s2 originDefinition definition st = Some r.
Proof.
  intros Hs. unfold forDefinition, followMirrors.
  destruct (linkedCodeMapOf _ _) as [[lcm|]|]; [|done..].
  destruct (forLinkedPositions s1 _ _ _ _ _) as [r1|] eqn:E; [|done].
  by rewrite (forLinkedPositions_mono _ _ _ _ _ _ _ _ Hs E).
Qed.

Lemma forDefinitions_mono (s1 s2 : @Search World) originDefinition definitions st r :
  (forall d p o st r, s1 d p o st = Some r -> s2 d p o st = Some r) ->
  forDefinitions context s1 originDefinition definitions st = Some r ->
  forDefinitions context s2 originDefinition definitions st = Some r.
Proof.
  intros Hs. revert st.
  induction definitions as [|d rest IH]; intros st; simpl; [done|].
  destruct (forDefinition context s1 _ _ _) as [[[[]|] st1]|] eqn:E; [| |done];
    rewrite (forDefinition_mono _ _ _ _ _ _ Hs E); [by apply IH|done].
Qed.

(** The equation of one step of the search. *)
Lemma withLinkedCode_S fuel document position o st :
  search (S fuel) document position o st
  = match pluginApi plugin apiName with
    | None => Some (Returned (), st)
    | Some api =>
        if dedupe.has (recursiveChecker st) (pointLocation (uri document) position)
        then Some (Returned (), st)
        else
          let '(definitions, st2) :=
            invoke api document position (mark (uri document) position st) in
          forDefinitions context (search fuel) o definitions st2
    end.
Proof. reflexivity. Qed.

Lemma withLinkedCode_fuel_S fuel document position o st r :
  search fuel document position o st = Some r ->
  search (S fuel) document position o st = Some r.
Proof.
  revert document position o st r.
  induction fuel as [|fuel IH]; intros document position o st r; [done|].
  rewrite (withLinkedCode_S (S fuel)), (withLinkedCode_S fuel).
  destruct (pluginApi plugin apiName) as [api|]; [|done].
  destruct (dedupe.has _ _); [done|].
  destruct (invoke _ _ _ _) as [definitions st2].
  by apply forDefinitions_mono.
Qed.

Lemma withLinkedCode_fuel_mono fuel fuel' document position o st r :
  fuel <= fuel' ->
  search fuel document position o st = Some r ->
  search fuel' document position o st = Some r.
Proof.
  induction 1 as [|fuel' _ IH]; [done|].
  intros Hrun. by apply withLinkedCode_fuel_S, IH.
Qed.

(** *** What one call does to the set *)

Lemma withLinkedCode_no_api fuel document position o st :
  pluginApi plugin apiName = None ->
  search (S fuel) document position o st = Some (Returned (), st).
Proof. intros Hapi. simpl. by rewrite Hapi. Qed.

Lemma withLinkedCode_visited fuel document position o st :
  dedupe.has (recursiveChecker st) (pointLocation (uri document) position) = true ->
  search (S fuel) document position o st = Some (Returned (), st).
Proof. intros Hhas. simpl. rewrite Hhas. by destruct (pluginApi _ _). Qed.

Lemma withLinkedCode_inserts fuel api document position o st ending st' :
  pluginApi plugin apiName = Some api ->
  dedupe.has (recursiveChecker st) (pointLocation (uri document) position) = false ->
  search fuel document position o st = Some (ending, st') ->
  dedupe.has (recursiveChecker st') (pointLocation (uri document) position) = true
  /\ length (invoked st) < length (invoked st').
Proof.
  intros Hapi Hhas. destruct fuel as [|fuel]; [done|]. simpl.
  rewrite Hapi, Hhas.
  destruct (invoke _ _ _ _) as [definitions st2] eqn:Einv.
  intros Hloop.
  apply forDefinitions_extends in Hloop; [|apply withLinkedCode_progressive].
  unfold invoke in Einv. destruct (api _ _ _) as [ds w]. simplify_eq.
  destruct Hloop as (Hsub & _ & [calls Hcalls]). simpl in *. split.
  - eapply has_mono; [done|]. apply has_add.
  - rewrite Hcalls, !length_app. simpl. lia.
Qed.

(** *** Termination *)

Section Termination.
(** A finite set that holds every mirror position the linked-code maps
    can produce. *)
Variable U : gset dedupe.Key.
Hypothesis U_closed : forall definition lcm q,
  linkedCodeMapOf context definition = Returned (Some lcm) ->
  q ∈ getLinkedCodePositions lcm (start (targetSelectionRange definition)) ->
  dedupe.getKey (pointLocation (uri (lcm_document lcm)) q) ∈ U.

(** The pairs of [U] not yet in the set. *)
Abbreviation unvisited st := (size (U ∖ recursiveChecker st)).

(** Every analyzer invocation is paid for by a pair of [U] that enters
    the set. *)
Abbreviation pays st st' :=
  (extends st st'
   /\ length (invoked st') + unvisited st' <= length (invoked st) + unvisited st).

Lemma extends_unvisited (st st' : State) : extends st st' -> unvisited st' <= unvisited st.
Proof.
  intros (Hsub & _). apply subseteq_size.
  intros x [Hx Hnot]%elem_of_difference. apply elem_of_difference.
  split; [done|]. intros Hin. by apply Hnot, Hsub.
Qed.

Lemma pays_refl (st : State) : pays st st.
Proof. split; [done|lia]. Qed.

Lemma pays_trans (a b c : State) : pays a b -> pays b c -> pays a c.
Proof. intros [? ?] [? ?]. split; [by etrans|lia]. Qed.

Lemma pays_mark u p (st : State) : pays st (mark u p st).
Proof.
  split; [apply extends_mark|].
  pose proof (extends_unvisited _ _ (extends_mark u p st)) as Hle.
  unfold mark in *. simpl in *. lia.
Qed.

Lemma pays_push l (st : State) : pays st (push l st).
Proof. split; [apply extends_push|]. simpl. lia. Qed.

Lemma unvisited_mark u p (st : State) :
  dedupe.getKey (pointLocation u p) ∈ U ->
  dedupe.has (recursiveChecker st) (pointLocation u p) = false ->
  S (unvisited (mark u p st)) = unvisited st.
Proof.
  clear U_closed. intros HU Hhas%has_false.
  unfold mark, dedupe.add. cbn [recursiveChecker].
  set (k := dedupe.getKey (pointLocation u p)) in *.
  assert (U ∖ recursiveChecker st = {[k]} ∪ U ∖ ({[k]} ∪ recursiveChecker st)) as ->.
  { apply set_eq. intros x.
    rewrite elem_of_union, !elem_of_difference, elem_of_union, elem_of_singleton.
    destruct (decide (x = k)) as [->|]; [tauto|]. tauto. }
  rewrite (size_union {[k]} (U ∖ ({[k]} ∪ recursiveChecker st))).
  - by rewrite size_singleton.
  - intros x Hx%elem_of_singleton [_ Hnot]%elem_of_difference.
    apply Hnot, elem_of_union_l. by apply elem_of_singleton.
Qed.

Lemma forLinkedPositions_total n (s : @Search World) lcm origin positions found st :
  (forall d p o st, dedupe.getKey (pointLocation (uri d) p) ∈ U -> unvisited st < n ->
     exists ending st', s d p o st = Some (ending, st') /\ pays st st') ->
  (forall q, q ∈ positions ->
     dedupe.getKey (pointLocation (uri (lcm_document lcm)) q) ∈ U) ->
  unvisited st < n ->
  exists ending st',
    forLinkedPositions s lcm origin positions found st = Some (ending, st')
    /\ pays st st'.
Proof.
  intros Hs. revert found st.
  induction positions as [|q rest IH]; intros found st HU Hn; simpl.
  - eexists _, _. split; [done|apply pays_refl].
  - destruct (dedupe.has _ _).
    + apply IH; [|done]. intros q' Hq'. apply HU. by right.
    + destruct (Hs (lcm_document lcm) q (Some origin) st) as (ending & st1 & -> & Hpay);
        [apply HU; by left|done|].
      destruct ending as [[]|]; [|eexists _, _; by split].
      destruct (IH true st1) as (ending' & st' & -> & Hpay').
      { intros q' Hq'. apply HU. by right. }
      { destruct Hpay as [Hext _]. apply extends_unvisited in Hext. lia. }
      eexists _, _. split; [done|by eapply pays_trans].
Qed.

Lemma forDefinition_total n (s : @Search World) originDefinition definition st :
  (forall d p o st, dedupe.getKey (pointLocation (uri d) p) ∈ U -> unvisited st < n ->
     exists ending st', s d p o st = Some (ending, st') /\ pays st st') ->
  unvisited st < n ->
  exists ending st',
    forDefinition context s originDefinition definition st = Some (ending, st')
    /\ pays st st'.
Proof.
  intros Hs Hn. unfold forDefinition, followMirrors.
  pose proof (pays_mark (targetUri definition) (start (targetRange definition)) st) as Hmark.
  destruct (linkedCodeMapOf context definition) as [[lcm|]|] eqn:Elcm.
  - edestruct (forLinkedPositions_total n s lcm) as (ending & st' & -> & Hpay);
      [exact Hs|by intros q; apply U_closed| |].
    { destruct Hmark as [Hext _]. apply extends_unvisited in Hext. lia. }
    destruct ending as [[]|]; eexists _, _; (split; [done|]).
    * by eapply pays_trans.
    * eapply pays_trans; [done|]. eapply pays_trans; [done|]. apply pays_push.
    * by eapply pays_trans.
  - eexists _, _. split; [done|]. eapply pays_trans; [done|apply pays_push].
  - eexists _, _. split; [done|]. done.
Qed.

Lemma forDefinitions_total n (s : @Search World) originDefinition definitions st :
  (forall d p o st, dedupe.getKey (pointLocation (uri d) p) ∈ U -> unvisited st < n ->
     exists ending st', s d p o st = Some (ending, st') /\ pays st st') ->
  unvisited st < n ->
  exists ending st',
    forDefinitions context s originDefinition definitions st = Some (ending, st')
    /\ pays st st'.
Proof.
  intros Hs. revert st.
  induction definitions as [|d rest IH]; intros st Hn; simpl.
  - eexists _, _. split; [done|apply pays_refl].
  - destruct (forDefinition_total n s originDefinition d st Hs Hn)
      as (ending & st1 & -> & Hpay).
    destruct ending as [[]|]; [|eexists _, _; by split].
    destruct (IH st1) as (ending' & st' & -> & Hpay').
    { destruct Hpay as [Hext _]. apply extends_unvisited in Hext. lia. }
    eexists _, _. split; [done|by eapply pays_trans].
Qed.

Lemma withLinkedCode_total fuel document position o st :
  dedupe.getKey (pointLocation (uri document) position) ∈ U ->
  unvisited st < fuel ->
  exists ending st',
    search fuel document position o st = Some (ending, st') /\ pays st st'.
Proof.
  revert document position o st.
  induction fuel as [|fuel IH]; intros document position o st HU Hn; [lia|].
  simpl. destruct (pluginApi plugin apiName) as [api|];
    [|eexists _, _; split; [done|apply pays_refl]].
  destruct (dedupe.has _ _) eqn:Ehas; [eexists _, _; split; [done|apply pays_refl]|].
  pose proof (unvisited_mark _ _ _ HU Ehas) as Hsize.
  unfold invoke. destruct (api _ _ _) as [definitions w].
  set (st2 := mkSearchState _ _ _ _).
  destruct (forDefinitions_total fuel (search fuel) o definitions st2)
    as (ending & st' & -> & Hpay).
  { intros d p o' st0 HU' Hn'. by apply IH. }
  { subst st2. simpl in *. lia. }
  eexists _, _. split; [done|].
  destruct Hpay as [Hext Hle]. split.
  - etrans; [apply extends_mark|]. etrans; [|exact Hext].
    subst st2. unfold extends. simpl. split_and!; [done|done|by apply prefix_app_r].
  - subst st2. simpl in *. rewrite length_app in Hle. simpl in Hle. lia.
Qed.

End Termination.

(** C2: the recursive search terminates whenever the mirror positions
    that the linked-code maps can produce lie in a finite set [U] (this
    includes maps where A mirrors B and B mirrors A): from some fuel on
    every call ends in the same way and in the same state, whether it
    returns or a lookup throws.  The set only grows; a call whose
    position is already in the set, or whose plugin lacks the api, returns
    at once and leaves the state as it was; any other call has put its own
    (document uri, position) into the set when it ends; and the number
    of analyzer invocations is bounded by the number of pairs of [U] (and
    the call's own pair) not yet in the set. *)
Theorem withLinkedCode_terminates (U : gset dedupe.Key) :
  (forall definition lcm q,
      linkedCodeMapOf context definition = Returned (Some lcm) ->
      q ∈ getLinkedCodePositions lcm (start (targetSelectionRange definition)) ->
      dedupe.getKey (pointLocation (uri (lcm_document lcm)) q) ∈ U) ->
  forall document position originDefinition st,
  exists fuel ending st',
    (forall fuel', fuel <= fuel' ->
       search fuel' document position originDefinition st = Some (ending, st'))
    /\ extends st st'
    /\ (pluginApi plugin apiName = None
        \/ dedupe.has (recursiveChecker st) (pointLocation (uri document) position) = true ->
        ending = Returned () /\ st' = st)
    /\ (pluginApi plugin apiName <> None ->
        dedupe.has (recursiveChecker st) (pointLocation (uri document) position) = false ->
        dedupe.has (recursiveChecker st') (pointLocation (uri document) position) = true)
    /\ length (invoked st')
       <= length (invoked st)
          + size (({[dedupe.getKey (pointLocation (uri document) position)]} ∪ U)
                  ∖ recursiveChecker st).
Proof.
  intros Hclosed document position o st.
  set (root := dedupe.getKey (pointLocation (uri document) position)).
  set (U' := {[root]} ∪ U).
  assert (forall definition lcm q,
      linkedCodeMapOf context definition = Returned (Some lcm) ->
      q ∈ getLinkedCodePositions lcm (start (targetSelectionRange definition)) ->
      dedupe.getKey (pointLocation (uri (lcm_document lcm)) q) ∈ U') as Hclosed'.
  { intros d lcm q Hd Hq. apply elem_of_union_r. by eapply Hclosed. }
  destruct (withLinkedCode_total U' Hclosed' (S (size (U' ∖ recursiveChecker st)))
              document position o st) as (ending & st' & Hrun & Hext & Hle).
  { by apply elem_of_union_l, elem_of_singleton. }
  { lia. }
  exists (S (size (U' ∖ recursiveChecker st))), ending, st'. split_and!.
  - intros fuel' Hfuel. by eapply withLinkedCode_fuel_mono.
  - done.
  - intros [Hapi|Hhas].
    + rewrite (withLinkedCode_no_api _ _ _ _ _ Hapi) in Hrun. by simplify_eq.
    + rewrite (withLinkedCode_visited _ _ _ _ _ Hhas) in Hrun. by simplify_eq.
  - intros Hapi Hhas. destruct (pluginApi plugin apiName) as [api|] eqn:Eapi; [|done].
    by destruct (withLinkedCode_inserts _ _ _ _ _ _ _ _ Eapi Hhas Hrun).
  - lia.
Qed.

(** *** The mirror loop *)

Lemma forLinkedPositions_visited (s : @Search World) lcm origin positions found st :
  existsb (fun linkedPos =>
             negb (dedupe.has (recursiveChecker st)
                     (pointLocation (uri (lcm_document lcm)) linkedPos))) positions = false ->
  forLinkedPositions s lcm origin positions found st = Some (Returned found, st).
Proof.
  induction positions as [|q rest IH]; simpl; [done|].
  intros [Hq Hrest]%orb_false_iff. apply negb_false_iff in Hq.
  rewrite Hq. by apply IH.
Qed.

Lemma forLinkedPositions_found (s : @Search World) lcm origin positions st found' st' :
  forLinkedPositions s lcm origin positions true st = Some (Returned found', st') ->
  found' = true.
Proof.
  revert st. induction positions as [|q rest IH]; intros st; simpl.
  - by intros [= <- _].
  - destruct (dedupe.has _ _); [apply IH|].
    destruct (s _ _ _ _) as [[[[]|] st1]|]; [apply IH|done|done].
Qed.

Lemma forLinkedPositions_followed fuel api lcm origin positions found st ending st' :
  pluginApi plugin apiName = Some api ->
  existsb (fun linkedPos =>
             negb (dedupe.has (recursiveChecker st)
                     (pointLocation (uri (lcm_document lcm)) linkedPos))) positions = true ->
  forLinkedPositions (search fuel) lcm origin positions found st = Some (ending, st') ->
  ending <> Returned false /\ length (invoked st) < length (invoked st').
Proof.
  intros Hapi. revert found.
  induction positions as [|q rest IH]; intros found; simpl; [done|].
  destruct (dedupe.has _ _) eqn:Ehas; simpl; [by apply IH|].
  intros _. destruct (search fuel _ _ _ _) as [[[[]|] st1]|] eqn:Ecall; [| |done].
  - intros Hrest. split.
    + intros ->. by apply forLinkedPositions_found in Hrest.
    + destruct (withLinkedCode_inserts _ _ _ _ _ _ _ _ Hapi Ehas Ecall) as [_ Hlt].
      apply forLinkedPositions_extends in Hrest; [|apply withLinkedCode_progressive].
      destruct Hrest as (_ & _ & [calls ->]). rewrite length_app. lia.
  - intros [= <- <-]. split; [done|].
    by destruct (withLinkedCode_inserts _ _ _ _ _ _ _ _ Hapi Ehas Ecall).
Qed.

(** C1: in every iteration of the candidate loop (the plugin has the api,
    since the loop is running): when there is no linked-code map for the
    candidate's target, or every mirror position of its
    [targetSelectionRange.start] is already in the set (the set as it is
    once the candidate's own target has been marked), the iteration makes no
    call and appends the candidate.  And whenever the iteration returns, the
    candidate is omitted (the iteration ends in the state in which its
    mirror loop ended and pushes nothing) if and only if a mirror position
    was followed (the analyzer was invoked again), which happens if and only
    if some mirror position was not yet in the set; the candidate is
    appended if and only if none was followed.  When the lookup of the
    linked-code map throws, the iteration throws with the target marked and
    nothing appended; and however the iteration ends, a mirror position was
    followed if and only if some mirror position was not yet in the set. *)
Theorem candidate_omitted_iff_mirror_followed
    fuel api originDefinition definition st :
  pluginApi plugin apiName = Some api ->
  let st1 := mark (targetUri definition) (start (targetRange definition)) st in
  let run := forDefinition context (search fuel) originDefinition definition st in
  (linkedCodeMapOf context definition = Returned None ->
   run = Some (Returned (), push (terminalLink definition originDefinition) st1))
  /\ (hasUnvisitedMirror context definition st1 = Returned false ->
      run = Some (Returned (), push (terminalLink definition originDefinition) st1))
  /\ (forall st',
       run = Some (Returned (), st') ->
       let omitted :=
         followMirrors context (search fuel) originDefinition definition st
         = Some (Returned true, st') in
       let appended := st' = push (terminalLink definition originDefinition) st1 in
       let followed := length (invoked st) < length (invoked st') in
       (omitted <-> followed)
       /\ (followed <-> hasUnvisitedMirror context definition st1 = Returned true)
       /\ (appended <-> ~ followed))
  /\ (linkedCodeMapOf context definition = Raised -> run = Some (Raised, st1))
  /\ (forall ending st',
       run = Some (ending, st') ->
       length (invoked st) < length (invoked st')
       <-> hasUnvisitedMirror context definition st1 = Returned true).
Proof.
  intros Hapi st1 run.
  assert (hasUnvisitedMirror context definition st1 = Returned false ->
          followMirrors context (search fuel) originDefinition definition st
          = Some (Returned false, st1)) as Hloop.
  { unfold hasUnvisitedMirror, followMirrors. fold st1. intros Hnone.
    destruct (linkedCodeMapOf context definition) as [[lcm|]|]; [|done..].
    cbn [bindOutcome] in Hnone. injection Hnone as Hnone. by apply forLinkedPositions_visited. }
  assert (hasUnvisitedMirror context definition st1 = Returned false ->
          run = Some (Returned (), push (terminalLink definition originDefinition) st1))
    as Hterminal.
  { intros Hnone%Hloop. unfold run, forDefinition. by rewrite Hnone. }
  split_and!; [|done| | |].
  { intros Hnone. apply Hterminal. unfold hasUnvisitedMirror. by rewrite Hnone. }
  2:{ intros Hraised. unfold run, forDefinition, followMirrors. by rewrite Hraised. }
  2:{ intros ending st' Hrun.
      destruct (hasUnvisitedMirror context definition st1) as [[]|] eqn:Emirror.
      - split; [done|]. intros _.
        unfold hasUnvisitedMirror in Emirror.
        unfold run, forDefinition, followMirrors in Hrun. fold st1 in Hrun.
        destruct (linkedCodeMapOf context definition) as [[lcm|]|]; [|done..].
        cbn [bindOutcome] in Emirror. injection Emirror as Emirror.
        destruct (forLinkedPositions _ _ _ _ _ _) as [[loop st2]|] eqn:Eloop; [|done].
        destruct (forLinkedPositions_followed _ _ _ _ _ _ st1 _ _ Hapi Emirror Eloop)
          as [Hfound Hlt].
        by destruct loop as [[]|]; simplify_eq.
      - rewrite (Hterminal eq_refl) in Hrun. simplify_eq. simpl. split; [lia|done].
      - unfold hasUnvisitedMirror in Emirror.
        unfold run, forDefinition, followMirrors in Hrun.
        destruct (linkedCodeMapOf context definition) as [[lcm|]|]; [done..|].
        simplify_eq. simpl. split; [lia|done]. }
  intros st' Hrun omitted appended followed.
  assert (hasUnvisitedMirror context definition st1 = Returned true -> omitted /\ followed)
    as Hfollowed.
  { unfold hasUnvisitedMirror, omitted. intros Hsome.
    unfold run, forDefinition in Hrun. unfold followMirrors in *. fold st1 in Hrun |- *.
    destruct (linkedCodeMapOf context definition) as [[lcm|]|]; [|done..].
    cbn [bindOutcome] in Hsome. injection Hsome as Hsome.
    destruct (forLinkedPositions _ _ _ _ _ _) as [[[found|] st2]|] eqn:Eloop; [|done..].
    destruct (forLinkedPositions_followed _ _ _ _ _ _ st1 _ _ Hapi Hsome Eloop)
      as [Hfound Hlt].
    destruct found; [|done]. by simplify_eq. }
  assert (appended -> ~ followed) as Hsame.
  { unfold appended, followed. intros ->. simpl. lia. }
  assert (hasUnvisitedMirror context definition st1 <> Raised) as Hreturned.
  { unfold hasUnvisitedMirror. intros Hraised.
    unfold run, forDefinition, followMirrors in Hrun.
    by destruct (linkedCodeMapOf context definition) as [[lcm|]|]. }
  destruct (hasUnvisitedMirror context definition st1) as [[]|] eqn:Emirror; [| |done].
  - destruct (Hfollowed eq_refl) as [Homitted Hcalled]. split_and!; [done|done|].
    split; [done|]. intros Hnot. by destruct Hnot.
  - assert (appended) as Happended.
    { unfold appended. rewrite (Hterminal eq_refl) in Hrun. by simplify_eq. }
    pose proof (Hsame Happended) as Hnot. split_and!.
    + split; [|done]. unfold omitted. rewrite (Hloop eq_refl). by intros [=].
    + split; [done|by intros [=]].
    + done.
Qed.

(** *** Marking the candidate's target *)

Lemma forLinkedPositions_enteredWith item (s : @Search World) lcm origin positions found st r :
  progressive s ->
  dedupe.has (recursiveChecker st) item = true ->
  forLinkedPositions s lcm origin positions found st = Some r ->
  forLinkedPositions (enteredWith item s) lcm origin positions found st = Some r.
Proof.
  intros Hs. revert found st.
  induction positions as [|q rest IH]; intros found st Hitem; simpl; [done|].
  destruct (dedupe.has (recursiveChecker st) (pointLocation _ q)); [by apply IH|].
  unfold enteredWith at 1. rewrite Hitem.
  destruct (s _ _ _ _) as [[[[]|] st1]|] eqn:Ecall; [|done..].
  apply IH. destruct (Hs _ _ _ _ _ _ Ecall) as [Hsub _]. by eapply has_mono.
Qed.

(** C5 (as the code has it): the pair a candidate is marked with is
    ([targetUri], [targetRange.start]).  It is in the set when the
    iteration ends; it was inserted before the mirror positions were
    enumerated, because the iteration runs unchanged when every recursive
    call refuses to start without that pair in the set; and a later search
    call at that document and position returns without descending. *)
Theorem candidate_target_marked fuel originDefinition definition st ending st' :
  forDefinition context (search fuel) originDefinition definition st = Some (ending, st') ->
  let item := pointLocation (targetUri definition) (start (targetRange definition)) in
  dedupe.has (recursiveChecker st') item = true
  /\ forDefinition context (enteredWith item (search fuel)) originDefinition definition st
     = Some (ending, st')
  /\ forall fuel' document originDefinition',
       uri document = targetUri definition ->
       search (S fuel') document (start (targetRange definition)) originDefinition' st'
       = Some (Returned (), st').
Proof.
  intros Hrun item.
  assert (dedupe.has (recursiveChecker st') item = true) as Hitem.
  { unfold forDefinition in Hrun.
    destruct (followMirrors _ _ _ _ _) as [[found st2]|] eqn:Eloop; [|done].
    assert (dedupe.has (recursiveChecker st2) item = true) as Hitem2.
    { unfold followMirrors in Eloop.
      destruct (linkedCodeMapOf context definition) as [[lcm|]|].
      - apply forLinkedPositions_extends in Eloop; [|apply withLinkedCode_progressive].
        destruct Eloop as [Hsub _]. eapply has_mono; [done|]. apply has_add.
      - simplify_eq. apply has_add.
      - simplify_eq. apply has_add. }
    by destruct found as [[]|]; simplify_eq. }
  split_and!; [done| |].
  - unfold forDefinition, followMirrors in *.
    destruct (linkedCodeMapOf context definition) as [[lcm|]|]; [|done..].
    destruct (forLinkedPositions (search fuel) _ _ _ _ _) as [r|] eqn:Eloop; [|done].
    erewrite forLinkedPositions_enteredWith;
      [done|apply withLinkedCode_progressive|apply has_add|done].
  - intros fuel' document o' Huri. apply withLinkedCode_visited. by rewrite Huri.
Qed.

(** *** Origin propagation through the search *)

(** The results of the later state are those of the earlier one followed
    by links that all carry the origin range of [origin]. *)
Abbreviation carries origin st st' :=
  (exists links, result st' = result st ++ links
     /\ Forall (fun link => originSelectionRange link = originSelectionRange origin) links).

Lemma carries_refl origin (st : State) : carries origin st st.
Proof. exists []. by rewrite app_nil_r. Qed.

Lemma carries_trans origin (a b c : State) :
  carries origin a b -> carries origin b c -> carries origin a c.
Proof.
  intros (l1 & E1 & F1) (l2 & E2 & F2). exists (l1 ++ l2).
  split; [by rewrite E2, E1, (assoc_L (++))|by apply Forall_app].
Qed.

Lemma forLinkedPositions_carries
    (s : @Search World) lcm origin positions found st ending st' :
  (forall d p st ending st',
      s d p (Some origin) st = Some (ending, st') -> carries origin st st') ->
  forLinkedPositions s lcm origin positions found st = Some (ending, st') ->
  carries origin st st'.
Proof.
  intros Hs. revert found st.
  induction positions as [|q rest IH]; intros found st; simpl.
  - intros [= _ <-]. apply carries_refl.
  - destruct (dedupe.has _ _); [apply IH|].
    destruct (s _ _ _ _) as [[[[]|] st1]|] eqn:Ecall; [| |done].
    + intros Hrest. eapply carries_trans; [by eapply Hs|by eapply IH].
    + intros [= _ <-]. by eapply Hs.
Qed.

Lemma forDefinition_carries (s : @Search World) originDefinition definition st ending st' :
  (forall d p st ending st',
      s d p (Some (default definition originDefinition)) st = Some (ending, st') ->
      carries (default definition originDefinition) st st') ->
  forDefinition context s originDefinition definition st = Some (ending, st') ->
  carries (default definition originDefinition) st st'.
Proof.
  intros Hs. unfold forDefinition, followMirrors.
  set (st1 := mark _ _ st).
  assert (carries (default definition originDefinition) st st1) as Hmark
    by (exists []; simpl; by rewrite app_nil_r).
  assert (forall st2 : State,
             carries (default definition originDefinition) st2
               (push (terminalLink definition originDefinition) st2)) as Hpush.
  { intros st2. exists [terminalLink definition originDefinition]. split; [done|].
    apply Forall_singleton. by destruct originDefinition. }
  destruct (linkedCodeMapOf context definition) as [[lcm|]|].
  - destruct (forLinkedPositions _ _ _ _ _ _) as [[[found|] st2]|] eqn:Eloop; [| |done].
    + apply forLinkedPositions_carries in Eloop; [|done].
      destruct found; intros [= _ <-].
      * exact (carries_trans _ _ _ _ Hmark Eloop).
      * exact (carries_trans _ _ _ _ Hmark (carries_trans _ _ _ _ Eloop (Hpush st2))).
    + apply forLinkedPositions_carries in Eloop; [|done].
      intros [= _ <-]. exact (carries_trans _ _ _ _ Hmark Eloop).
  - intros [= _ <-]. exact (carries_trans _ _ _ _ Hmark (Hpush st1)).
  - intros [= _ <-]. exact Hmark.
Qed.

Lemma withLinkedCode_carries fuel origin document position st ending st' :
  search fuel document position (Some origin) st = Some (ending, st') ->
  carries origin st st'.
Proof.
  revert document position st ending st'.
  induction fuel as [|fuel IH]; intros document position st ending st'; simpl; [done|].
  destruct (pluginApi plugin apiName) as [api|];
    [|intros [= _ <-]; apply carries_refl].
  destruct (dedupe.has _ _); [intros [= _ <-]; apply carries_refl|].
  unfold invoke. destruct (api _ _ _) as [definitions w].
  set (st2 := mkSearchState _ _ _ _).
  assert (carries origin st st2) as Hst2 by (exists []; simpl; by rewrite app_nil_r).
  clearbody st2. revert st2 Hst2.
  induction definitions as [|d rest IHd]; intros st2 Hst2; simpl.
  - by intros [= _ <-].
  - destruct (forDefinition _ _ _ _ _) as [[[[]|] st3]|] eqn:Ebody; [| |done].
    + apply (forDefinition_carries _ (Some origin)) in Ebody; [|by apply IH].
      apply IHd. by eapply carries_trans.
    + apply (forDefinition_carries _ (Some origin)) in Ebody; [|by apply IH].
      intros [= _ <-]. by eapply carries_trans.
Qed.


End ResolverFacts.

(** ** The result projector *)



Section ProjectorFacts.
Context {VirtualCode : Type} `{!UriApi}.
Variable context : LanguageServiceContext VirtualCode.
Variable uri' : Uri.
Variable position : Position.

Abbreviation withOrigin link range :=
  (mkLocationLink (Some range) (targetUri link) (targetRange link)
                  (targetSelectionRange link)).

Lemma refineOrigin_target map link link1 :
  refineOrigin position map link = Some link1 ->
  targetUri link1 = targetUri link
  /\ targetRange link1 = targetRange link
  /\ targetSelectionRange link1 = targetSelectionRange link.
Proof.
  unfold refineOrigin. destruct (originSelectionRange link) as [origin|]; [|by intros [= <-]].
  destruct map as [map|]; [|by intros [= <-]].
  destruct (toSourcePositionPreferSurroundedPosition _ _ _); [|done].
  by intros [= <-].
Qed.

Lemma projectTarget_origin apiName link link' :
  projectTarget context apiName uri' link = Returned (Some link') ->
  originSelectionRange link' = originSelectionRange link.
Proof.
  unfold projectTarget.
  destruct (virtualCodeOf _ _) as [[vf|]|]; simpl; [|by intros [= <-]|done].
  destruct (getSourceRange _ (targetSelectionRange link)); [by intros [= <-]|].
  repeat case_bool_decide; by intros [= <-].
Qed.






(** C7 (as the code has it): take a link that gets past the origin
    refinement, whose target decodes to a generated document and whose
    target selection range has no source mapping.  Under the plain
    definition kind, if the owning source document is not the queried one
    the projector emits a stub at the owning document whose two target
    ranges are the zero-width range at line 0, character 0 (the refined
    origin range is kept); if it is the queried one the link is dropped. *)
Theorem unmapped_definition_target_stub map link link1 targetVirtualFile :
  refineOrigin position map link = Some link1 ->
  virtualCodeOf context (targetUri link) = Returned (Some targetVirtualFile) ->
  getSourceRange (documents_getSourceMap context targetVirtualFile)
                 (targetSelectionRange link) = None ->
  let owner := uri (sourceDocument (documents_getSourceMap context targetVirtualFile)) in
  (owner <> URI_toString uri' ->
   projectLink context provideDefinition uri' position map link
   = Returned (Some (mkLocationLink (originSelectionRange link1) owner zeroRange zeroRange)))
  /\ (owner = URI_toString uri' ->
      projectLink context provideDefinition uri' position map link = Returned None).
Proof.
  intros Hrefine Hvf Hunmapped owner.
  destruct (refineOrigin_target _ _ _ Hrefine) as (Huri & _ & Hsel).
  unfold projectLink. rewrite Hrefine. unfold projectTarget.
  rewrite Huri, Hvf, Hsel. cbn [bindOutcome]. rewrite Hunmapped. fold owner.
  rewrite bool_decide_eq_true_2 by done.
  split; intros Howner.
  - by rewrite bool_decide_eq_true_2.
  - by rewrite bool_decide_eq_false_2 by (by intros ?).
Qed.

(** *** Link objects *)





(** C3: every link that the processing of one candidate appends, the
    candidate itself or the terminal targets reached through its mirrors,
    however long the chain and however the processing ends, carries the
    origin range of the first candidate of the chain: the inherited
    [originDefinition] if there is one, else the candidate.  After
    projection that origin range is the first candidate's, mapped back
    through the seed's source map. *)
Theorem origin_propagates {World : Type} apiName
    (plugin : LanguageServicePluginInstance World)
    fuel originDefinition definition st ending st' :
  forDefinition context (withLinkedCode context apiName plugin fuel)
                originDefinition definition st = Some (ending, st') ->
  let first := default definition originDefinition in
  exists links,
    result st' = result st ++ links
    /\ Forall (fun link => originSelectionRange link = originSelectionRange first) links
    /\ forall map link link',
         link ∈ links ->
         projectLink context apiName uri' position map link = Returned (Some link') ->
         originSelectionRange link'
         = match originSelectionRange first, map with
           | Some origin, Some map' =>
               toSourcePositionPreferSurroundedPosition map' origin position
           | origin, _ => origin
           end.
Proof.
  intros Hrun first.
  apply forDefinition_carries in Hrun;
    [|intros d p st0 ending0 st0'; apply withLinkedCode_carries].
  destruct Hrun as (links & Hresult & Hall). exists links. split_and!; [done..|].
  intros map link link' Hin. rewrite Forall_forall in Hall.
  specialize (Hall _ Hin). fold first in Hall.
  unfold projectLink.
  destruct (refineOrigin position map link) as [link1|] eqn:Hrefine; [|done].
  intros Htarget%projectTarget_origin. rewrite Htarget.
  unfold refineOrigin in Hrefine. rewrite Hall in Hrefine.
  destruct (originSelectionRange first) as [origin|]; [|by simplify_eq].
  destruct map as [map|]; [|by simplify_eq].
  destruct (toSourcePositionPreferSurroundedPosition _ _ _); by simplify_eq.
Qed.

End ProjectorFacts.

(** ** Embedded document addressing *)

Section AddressingFacts.
Context `{!UriApi}.
Import languageService.

(** C4 (as the code has it): decoding an encoded pair gives the id back
    and, for the uri, what [URI.parse] makes of the uri's string; this is
    the uri itself exactly when parsing undoes printing of it.  Encoding
    throws exactly when percent-encoding the id or the uri's string does.
    A uri whose scheme is not the embedded-content scheme decodes to
    none, without a call that could throw.  The percent-coding globals are
    taken to be what ECMAScript says of them: [decodeURIComponent] undoes
    [encodeURIComponent]. *)
Theorem decode_encode_embedded_uri documentUri embeddedContentId :
  (forall s encoded,
      encodeURIComponent s = Returned encoded -> decodeURIComponent encoded = Returned s) ->
  (forall embedded,
      encodeEmbeddedDocumentUri documentUri embeddedContentId = Returned embedded ->
      decodeEmbeddedDocumentUri embedded
      = bindOutcome (URI_parse (URI_toString documentUri))
          (fun parsed => Returned (Some (parsed, embeddedContentId)))
      /\ (decodeEmbeddedDocumentUri embedded
          = Returned (Some (documentUri, embeddedContentId))
          <-> URI_parse (URI_toString documentUri) = Returned documentUri))
  /\ (encodeEmbeddedDocumentUri documentUri embeddedContentId = Raised
      <-> encodeURIComponent embeddedContentId = Raised
          \/ encodeURIComponent (URI_toString documentUri) = Raised)
  /\ forall other,
       scheme other <> embeddedContentScheme ->
       decodeEmbeddedDocumentUri other = Returned None.
Proof.
  intros Hinverse. split_and!.
  - intros embedded. unfold encodeEmbeddedDocumentUri.
    destruct (encodeURIComponent embeddedContentId) as [encodedId|] eqn:Eid; [|done].
    destruct (encodeURIComponent (URI_toString documentUri)) as [encodedUri|] eqn:Euri;
      [|done].
    cbn [bindOutcome]. intros [= <-].
    assert (decodeEmbeddedDocumentUri
              (URI_from embeddedContentScheme encodedId ("/" ++ encodedUri))
            = bindOutcome (URI_parse (URI_toString documentUri))
                (fun parsed => Returned (Some (parsed, embeddedContentId)))) as Hdecoded.
    { unfold decodeEmbeddedDocumentUri, URI_from. cbn [scheme authority path].
      rewrite bool_decide_eq_true_2 by done.
      change (substring1 ("/" ++ encodedUri)) with encodedUri.
      by rewrite (Hinverse _ _ Eid), (Hinverse _ _ Euri). }
    split; [done|]. rewrite Hdecoded.
    destruct (URI_parse (URI_toString documentUri)) as [parsed|]; cbn [bindOutcome].
    + split; [by intros [= ->]|by intros [= ->]].
    + split; done.
  - unfold encodeEmbeddedDocumentUri.
    destruct (encodeURIComponent embeddedContentId) as [encodedId|]; cbn [bindOutcome].
    + destruct (encodeURIComponent (URI_toString documentUri)) as [encodedUri|];
        cbn [bindOutcome].
      * split; [done|by intros [|]].
      * split; [by right|done].
    + split; [by left|done].
  - intros other Hscheme. unfold decodeEmbeddedDocumentUri.
    by rewrite bool_decide_eq_false_2.
Qed.

End AddressingFacts.

(** ** The document cache *)

Section DocumentsFacts.
Context `{!UriApi}.
Variable toKey : Uri -> string.
Import languageService.

(** The document filed for a snapshot and a key, and the counter of a key. *)
Abbreviation stored c identity key :=
  (snapshot2Doc c !! identity ≫= fun map : gmap string TextDocument => map !! key).
Abbreviation counter c key := (default 0 (documentVersions c !! key)).
Abbreviation get c k :=
  (documents_get toKey c (call_uri k) (call_languageId k) (call_snapshot k)).
Abbreviation pairOf k := (snapshot_identity (call_snapshot k), toKey (call_uri k)).

Lemma documents_get_hit c uri' languageId' snapshot doc :
  stored c (snapshot_identity snapshot) (toKey uri') = Some doc ->
  documents_get toKey c uri' languageId' snapshot = (doc, c).
Proof.
  unfold documents_get.
  destruct (snapshot2Doc c !! snapshot_identity snapshot) as [map|] eqn:Emap; [|done].
  simpl. intros Hdoc. rewrite Emap. simpl. by rewrite Hdoc.
Qed.

Lemma documents_get_miss c uri' languageId' snapshot :
  stored c (snapshot_identity snapshot) (toKey uri') = None ->
  exists c',
    documents_get toKey c uri' languageId' snapshot
    = (mkTextDocument (URI_toString uri') languageId' (counter c (toKey uri'))
                      (snapshot_text snapshot), c')
    /\ documentVersions c' = <[toKey uri' := counter c (toKey uri') + 1]> (documentVersions c)
    /\ forall identity key,
         stored c' identity key
         = if decide ((identity, key) = (snapshot_identity snapshot, toKey uri'))
           then Some (mkTextDocument (URI_toString uri') languageId'
                                     (counter c (toKey uri')) (snapshot_text snapshot))
           else stored c identity key.
Proof.
  unfold documents_get.
  destruct (snapshot2Doc c !! snapshot_identity snapshot) as [map|] eqn:Emap; simpl.
  - intros Hnone. rewrite Emap. simpl. rewrite Hnone.
    eexists. split_and!; [done..|]. intros identity key. simpl.
    destruct (decide (identity = snapshot_identity snapshot)) as [->|Hne].
    + rewrite lookup_insert_eq. simpl.
      destruct (decide (key = toKey uri')) as [->|Hne'].
      * rewrite lookup_insert_eq. by rewrite decide_True.
      * rewrite lookup_insert_ne by done. rewrite decide_False by congruence.
        by rewrite Emap.
    + rewrite lookup_insert_ne by done. by rewrite decide_False by congruence.
  - intros _. rewrite lookup_insert_eq. simpl. rewrite lookup_empty.
    eexists. split_and!; [done..|]. intros identity key. simpl.
    rewrite insert_insert_eq.
    destruct (decide (identity = snapshot_identity snapshot)) as [->|Hne].
    + rewrite lookup_insert_eq. simpl.
      destruct (decide (key = toKey uri')) as [->|Hne'].
      * rewrite lookup_insert_eq. by rewrite decide_True.
      * rewrite lookup_insert_ne by done. rewrite decide_False by congruence.
        by rewrite Emap, lookup_empty.
    + rewrite lookup_insert_ne by done. by rewrite decide_False by congruence.
Qed.

(** The invariant of the cache: a filed document's version is below its
    key's counter, and two snapshots never share a version for one key. *)
Abbreviation consistent c :=
  ((forall identity key doc,
       stored c identity key = Some doc -> version doc < counter c key)
   /\ (forall identity1 identity2 key doc1 doc2,
         stored c identity1 key = Some doc1 ->
         stored c identity2 key = Some doc2 ->
         identity1 <> identity2 -> version doc1 <> version doc2)).

Lemma consistent_empty : consistent emptyCache.
Proof. split; intros *; simpl; by rewrite lookup_empty. Qed.

(** One request: the answer is filed, nothing filed is lost, counters do
    not go down, a first request for its pair takes the counter's value,
    and the invariant is kept. *)
Lemma documents_get_step c k doc c' :
  consistent c ->
  get c k = (doc, c') ->
  consistent c'
  /\ stored c' (pairOf k).1 (pairOf k).2 = Some doc
  /\ (forall identity key d, stored c identity key = Some d ->
                             stored c' identity key = Some d)
  /\ (forall identity key d, stored c' identity key = Some d ->
                             stored c identity key = Some d \/ (identity, key) = pairOf k)
  /\ (forall key, counter c key <= counter c' key)
  /\ (stored c (pairOf k).1 (pairOf k).2 = None ->
      version doc = counter c (pairOf k).2 /\ counter c (pairOf k).2 < counter c' (pairOf k).2).
Proof.
  intros [Hbelow Hdistinct]. simpl.
  destruct (stored c (snapshot_identity (call_snapshot k)) (toKey (call_uri k)))
    as [d|] eqn:Estored.
  - rewrite (documents_get_hit _ _ _ _ _ Estored). intros [= <- <-].
    split_and!; try done. by left.
  - destruct (documents_get_miss c (call_uri k) (call_languageId k) (call_snapshot k) Estored)
      as (c1 & -> & Hversions & Hstored).
    intros [= <- <-].
    assert (forall key, counter c1 key
                        = if decide (key = toKey (call_uri k))
                          then counter c (toKey (call_uri k)) + 1
                          else counter c key) as Hcounter.
    { intros key. rewrite Hversions. case_decide as Hkey.
      - subst key. by rewrite lookup_insert_eq.
      - by rewrite lookup_insert_ne. }
    split_and!.
    + intros identity key doc. rewrite Hstored, Hcounter.
      case_decide as Hpair.
      * intros [= <-]. simplify_eq. rewrite decide_True by done. simpl. lia.
      * intros Hold%Hbelow. case_decide; [subst key|done]. lia.
    + intros identity1 identity2 key doc1 doc2. rewrite !Hstored.
      repeat case_decide; simplify_eq; intros Hd1 Hd2 Hne; try done;
        try (by eapply Hdistinct); simplify_eq; simpl.
      * apply Hbelow in Hd2. lia.
      * apply Hbelow in Hd1. lia.
    + rewrite Hstored. by rewrite decide_True.
    + intros identity key d Hold. rewrite Hstored. case_decide; [|done].
      by simplify_eq.
    + intros identity key d. rewrite Hstored. case_decide; [by right|by left].
    + intros key. rewrite Hcounter. case_decide; [subst key|done]. lia.
    + intros _. split; [done|]. rewrite Hcounter, decide_True by done. lia.
Qed.

(** A run of requests from a consistent cache. *)
Lemma getAll_run c calls docs c' :
  consistent c ->
  getAll toKey c calls = (docs, c') ->
  consistent c'
  /\ length docs = length calls
  /\ (forall identity key d, stored c identity key = Some d ->
                             stored c' identity key = Some d)
  /\ (forall key, counter c key <= counter c' key)
  /\ (forall i k doc, calls !! i = Some k -> docs !! i = Some doc ->
                      stored c' (pairOf k).1 (pairOf k).2 = Some doc)
  /\ (forall j k doc, calls !! j = Some k -> docs !! j = Some doc ->
        stored c (pairOf k).1 (pairOf k).2 = None ->
        (forall h k', h < j -> calls !! h = Some k' -> pairOf k' <> pairOf k) ->
        counter c (pairOf k).2 <= version doc
        /\ forall i k' doc', i < j -> calls !! i = Some k' -> docs !! i = Some doc' ->
             (pairOf k').2 = (pairOf k).2 -> version doc' < version doc).
Proof.
  revert c docs c'.
  induction calls as [|k0 rest IH]; intros c docs c' Hc; simpl.
  - intros [= <- <-]. destruct Hc. split_and!; done.
  - destruct (get c k0) as [doc0 c1] eqn:Estep.
    destruct (getAll toKey c1 rest) as [docs1 c2] eqn:Erest.
    intros [= <- <-].
    destruct (documents_get_step _ _ _ _ Hc Estep)
      as (Hc1 & Hfiled & Hkeep & Hnew & Hmono & Hfirst).
    destruct (IH _ _ _ Hc1 Erest) as (Hc2 & Hlen & Hkeep' & Hmono' & Hfiled' & Hfirst').
    split; [done|]. split_and!.
    + simpl. by rewrite Hlen.
    + intros identity key d Hold. by apply Hkeep', Hkeep.
    + intros key. etrans; [apply Hmono|apply Hmono'].
    + intros [|i] k doc; simpl.
      * intros [= <-] [= <-]. by apply Hkeep'.
      * apply Hfiled'.
    + intros [|j] k doc; simpl.
      * intros [= <-] [= <-] Hnone _. destruct (Hfirst Hnone) as [-> _].
        split; [done|]. intros i k' doc' Hlt. lia.
      * intros Hk Hdoc Hnone Hfresh.
        assert (pairOf k0 <> pairOf k) as Hk0.
        { apply (Hfresh 0 k0); [lia|done]. }
        assert (stored c1 (pairOf k).1 (pairOf k).2 = None) as Hnone1.
        { destruct (stored c1 (pairOf k).1 (pairOf k).2) as [d|] eqn:Ed; [|done].
          destruct (Hnew _ _ _ Ed) as [Hold|Hpair].
          - simpl in Hold. congruence.
          - simpl in *. congruence. }
        destruct (Hfirst' j k doc Hk Hdoc Hnone1) as [Hle Hbefore].
        { intros h k' Hlt Hk'. apply (Hfresh (S h) k'); [lia|done]. }
        split; [etrans; [apply Hmono|done]|].
        intros [|i] k' doc' Hlt; simpl.
        -- intros [= <-] [= <-] Hkey.
           destruct Hc1 as [Hbelow1 _].
           specialize (Hbelow1 _ _ _ Hfiled). simpl in *. rewrite Hkey in Hbelow1. lia.
        -- intros Hk' Hdoc' Hkey. apply (Hbefore i k' doc'); [lia|done..].
Qed.

(** C10: in any sequence of requests to a fresh cache, two requests with
    the same snapshot (identity) and the same uri key get the same
    document; two requests with different snapshots and the same uri key
    get documents with different versions; and a request that is the first
    for its (snapshot, uri) pair gets a version greater than the version of
    every document handed out for that uri before it, so versions are
    assigned in first-seen order and are never reused or decremented. *)
Theorem documents_get_memoizes_and_versions calls i j ki kj doci docj :
  i < j ->
  calls !! i = Some ki ->
  calls !! j = Some kj ->
  (getAll toKey emptyCache calls).1 !! i = Some doci ->
  (getAll toKey emptyCache calls).1 !! j = Some docj ->
  toKey (call_uri ki) = toKey (call_uri kj) ->
  (snapshot_identity (call_snapshot ki) = snapshot_identity (call_snapshot kj) ->
   docj = doci)
  /\ (snapshot_identity (call_snapshot ki) <> snapshot_identity (call_snapshot kj) ->
      version doci <> version docj)
  /\ ((forall h kh, h < j -> calls !! h = Some kh -> pairOf kh <> pairOf kj) ->
      version doci < version docj).
Proof.
  intros Hlt Hki Hkj. destruct (getAll toKey emptyCache calls) as [docs c'] eqn:Erun.
  simpl. intros Hdoci Hdocj Hkey.
  destruct (getAll_run _ _ _ _ consistent_empty Erun)
    as ([_ Hdistinct] & _ & _ & _ & Hfiled & Hfirst).
  pose proof (Hfiled _ _ _ Hki Hdoci) as Hi.
  pose proof (Hfiled _ _ _ Hkj Hdocj) as Hj.
  simpl in Hi, Hj. split_and!.
  - intros Hsame. rewrite Hsame, Hkey in Hi. congruence.
  - intros Hdiff. rewrite Hkey in Hi. by eapply Hdistinct.
  - intros Hfresh.
    destruct (Hfirst j kj docj Hkj Hdocj) as [_ Hbefore]; [by simpl; rewrite lookup_empty|done|].
    by apply (Hbefore i ki doci).
Qed.

End DocumentsFacts.

(** * Further properties *)

(** ** The search: what it asks the analyzer and what it returns *)

Section ResolverExtras.
Context {VirtualCode World : Type} `{!UriApi}.
Variable context : LanguageServiceContext VirtualCode.
Variable apiName : ApiName.
Variable plugin : LanguageServicePluginInstance World.

Abbreviation search' := (withLinkedCode context apiName plugin).

(** Every recorded invocation is at a pair that is in the set, and no pair
    was invoked twice. *)
Abbreviation askedOnce st :=
  (NoDup (invoked st)
   /\ forall u p, (u, p) ∈ invoked st ->
                  dedupe.has (recursiveChecker st) (pointLocation u p) = true).

Lemma askedOnce_mark u p (st : SearchState World) :
  askedOnce st -> askedOnce (mark u p st).
Proof.
  intros [Hnodup Hin]. split; [done|]. intros u' p' Hasked. simpl.
  eapply has_mono; [|by apply Hin]. unfold dedupe.add. apply union_subseteq_r.
Qed.

Lemma forLinkedPositions_askedOnce (s : @Search World) lcm origin positions found st r :
  (forall d p o st r, askedOnce st -> s d p o st = Some r -> askedOnce r.2) ->
  askedOnce st ->
  forLinkedPositions s lcm origin positions found st = Some r ->
  askedOnce r.2.
Proof.
  intros Hs. revert found st.
  induction positions as [|q rest IH]; intros found st Hst; simpl.
  - by intros [= <-].
  - destruct (dedupe.has _ _); [by apply IH|].
    destruct (s _ _ _ _) as [[[[]|] st1]|] eqn:Ecall; [| |done].
    + apply IH. by apply (Hs _ _ _ _ _ Hst Ecall).
    + intros [= <-]. by apply (Hs _ _ _ _ _ Hst Ecall).
Qed.

Lemma forDefinitions_askedOnce (s : @Search World) originDefinition definitions st r :
  (forall d p o st r, askedOnce st -> s d p o st = Some r -> askedOnce r.2) ->
  askedOnce st ->
  forDefinitions context s originDefinition definitions st = Some r ->
  askedOnce r.2.
Proof.
  intros Hs. revert st.
  induction definitions as [|d rest IH]; intros st Hst; simpl.
  - by intros [= <-].
  - unfold forDefinition, followMirrors.
    pose proof (askedOnce_mark (targetUri d) (start (targetRange d)) st Hst) as Hmarked.
    destruct (linkedCodeMapOf context d) as [[lcm|]|].
    + destruct (forLinkedPositions _ _ _ _ _ _) as [[[found|] st2]|] eqn:Eloop; [| |done].
      * apply forLinkedPositions_askedOnce in Eloop; [|done..].
        destruct found; by apply IH.
      * apply forLinkedPositions_askedOnce in Eloop; [|done..]. by intros [= <-].
    + by apply IH.
    + by intros [= <-].
Qed.

Lemma withLinkedCode_askedOnce fuel document position o st r :
  askedOnce st ->
  search' fuel document position o st = Some r ->
  askedOnce r.2.
Proof.
  revert document position o st r.
  induction fuel as [|fuel IH]; intros document position o st r Hst; [done|].
  rewrite withLinkedCode_S.
  destruct (pluginApi plugin apiName) as [api|]; [|by intros [= <-]].
  destruct (dedupe.has _ _) eqn:Ehas; [by intros [= <-]|].
  unfold invoke. destruct (api _ _ _) as [definitions w].
  apply forDefinitions_askedOnce; [by apply IH|].
  destruct Hst as [Hnodup Hin]. split; simpl.
  - apply NoDup_app. split_and!; [done| |apply NoDup_singleton].
    intros [u p] Hasked [= -> ->]%list_elem_of_singleton. apply Hin in Hasked. congruence.
  - intros u p [Hasked|[= -> ->]%list_elem_of_singleton]%elem_of_app.
    + eapply has_mono; [|by apply Hin]. unfold dedupe.add. apply union_subseteq_r.
    + apply has_add.
Qed.

(** X1: in one run of the worker the analyzer is never invoked twice for
    the same document uri and position, whether the run returns or
    throws. *)
Theorem analyzer_asked_once_per_position
    (isCancellationRequested : World -> bool) fuel document position w run :
  worker context apiName isCancellationRequested plugin fuel document position w = Some run ->
  NoDup (analyzerCalls run).
Proof.
  unfold worker. destruct (isCancellationRequested w).
  - intros [= <-]. apply NoDup_nil_2.
  - destruct (withLinkedCode _ _ _ _ _ _ _ _) as [[ending st]|] eqn:Erun; [|done].
    apply withLinkedCode_askedOnce in Erun.
    + destruct ending; intros [= <-]; by destruct Erun.
    + split; [apply NoDup_nil_2|]. intros u p Hin. by apply not_elem_of_nil in Hin.
Qed.

(** A pair at which some linked-code map of the context has a mirror
    position. *)
Abbreviation mirrorPair pair :=
  (exists definition lcm,
      linkedCodeMapOf context definition = Returned (Some lcm)
      /\ pair.1 = uri (lcm_document lcm)
      /\ pair.2 ∈ getLinkedCodePositions lcm (start (targetSelectionRange definition))).

(** The invocations that a call adds: none, or its own pair followed by
    mirror pairs. *)
Abbreviation asksMirrors document position st st' :=
  (invoked st' = invoked st
   \/ exists calls, invoked st' = invoked st ++ (uri document, position) :: calls
                    /\ Forall (fun pair => mirrorPair pair) calls).

Abbreviation asksOnlyMirrors st st' :=
  (exists calls, invoked st' = invoked st ++ calls
                 /\ Forall (fun pair => mirrorPair pair) calls).

Lemma asksOnlyMirrors_refl (st : SearchState World) : asksOnlyMirrors st st.
Proof. exists []. by rewrite app_nil_r. Qed.

Lemma asksOnlyMirrors_trans (a b c : SearchState World) :
  asksOnlyMirrors a b -> asksOnlyMirrors b c -> asksOnlyMirrors a c.
Proof.
  intros (l1 & E1 & F1) (l2 & E2 & F2). exists (l1 ++ l2).
  split; [by rewrite E2, E1, (assoc_L (++))|by apply Forall_app].
Qed.

Lemma asksMirrors_only definition lcm q (st st' : SearchState World) :
  linkedCodeMapOf context definition = Returned (Some lcm) ->
  q ∈ getLinkedCodePositions lcm (start (targetSelectionRange definition)) ->
  asksMirrors (lcm_document lcm) q st st' ->
  asksOnlyMirrors st st'.
Proof.
  intros Hlcm Hq [->|(calls & -> & Hcalls)]; [apply asksOnlyMirrors_refl|].
  eexists. split; [done|]. apply Forall_cons. split; [|done].
  by exists definition, lcm.
Qed.

Lemma forLinkedPositions_asksOnlyMirrors
    (s : @Search World) definition lcm origin positions found st r :
  (forall d p o st r, s d p o st = Some r -> asksMirrors d p st r.2) ->
  linkedCodeMapOf context definition = Returned (Some lcm) ->
  positions ⊆ getLinkedCodePositions lcm (start (targetSelectionRange definition)) ->
  forLinkedPositions s lcm origin positions found st = Some r ->
  asksOnlyMirrors st r.2.
Proof.
  intros Hs Hlcm. revert found st.
  induction positions as [|q rest IH]; intros found st Hsub; simpl.
  - intros [= <-]. apply asksOnlyMirrors_refl.
  - assert (rest ⊆ getLinkedCodePositions lcm (start (targetSelectionRange definition)))
      as Hrest by (intros x Hx; apply Hsub; by right).
    assert (q ∈ getLinkedCodePositions lcm (start (targetSelectionRange definition)))
      as Hq by (apply Hsub; by left).
    destruct (dedupe.has _ _); [by apply IH|].
    destruct (s _ _ _ _) as [[[[]|] st1]|] eqn:Ecall; [| |done].
    + intros Hloop. eapply asksOnlyMirrors_trans; [|by eapply IH].
      exact (asksMirrors_only _ _ _ _ _ Hlcm Hq (Hs _ _ _ _ _ Ecall)).
    + intros [= <-]. exact (asksMirrors_only _ _ _ _ _ Hlcm Hq (Hs _ _ _ _ _ Ecall)).
Qed.

Lemma forDefinitions_asksOnlyMirrors (s : @Search World) originDefinition definitions st r :
  (forall d p o st r, s d p o st = Some r -> asksMirrors d p st r.2) ->
  forDefinitions context s originDefinition definitions st = Some r ->
  asksOnlyMirrors st r.2.
Proof.
  intros Hs. revert st.
  induction definitions as [|d rest IH]; intros st; simpl.
  - intros [= <-]. apply asksOnlyMirrors_refl.
  - unfold forDefinition, followMirrors.
    destruct (linkedCodeMapOf context d) as [[lcm|]|] eqn:Elcm.
    + destruct (forLinkedPositions _ _ _ _ _ _) as [[[found|] st2]|] eqn:Eloop; [| |done].
      * apply (forLinkedPositions_asksOnlyMirrors _ d) in Eloop; [|done..].
        destruct found; intros Hrest%IH.
        -- by eapply asksOnlyMirrors_trans.
        -- eapply asksOnlyMirrors_trans; [exact Eloop|]. exact Hrest.
      * apply (forLinkedPositions_asksOnlyMirrors _ d) in Eloop; [|done..].
        by intros [= <-].
    + intros Hrest%IH. exact Hrest.
    + intros [= <-]. exists []. simpl. by rewrite app_nil_r.
Qed.

Lemma withLinkedCode_asksMirrors fuel document position o st r :
  search' fuel document position o st = Some r ->
  asksMirrors document position st r.2.
Proof.
  revert document position o st r.
  induction fuel as [|fuel IH]; intros document position o st r; [done|].
  rewrite withLinkedCode_S.
  destruct (pluginApi plugin apiName) as [api|]; [|intros [= <-]; by left].
  destruct (dedupe.has _ _); [intros [= <-]; by left|].
  unfold invoke. destruct (api _ _ _) as [definitions w].
  intros (calls & Hcalls & Hmirrors)%forDefinitions_asksOnlyMirrors; [|by apply IH].
  right. exists calls. split; [|done]. rewrite Hcalls. simpl. by rewrite <-(assoc_L (++)).
Qed.

(** X2: the analyzer is invoked at the seed first and after that only at
    mirror positions: every later invocation is at the document of a
    linked-code map and at a position that this map links to the name of
    some target. *)
Theorem analyzer_asked_at_seed_then_mirrors
    (isCancellationRequested : World -> bool) fuel document position w run :
  worker context apiName isCancellationRequested plugin fuel document position w = Some run ->
  analyzerCalls run = []
  \/ exists calls,
       analyzerCalls run = (uri document, position) :: calls
       /\ Forall (fun pair =>
                    exists definition lcm,
                      linkedCodeMapOf context definition = Returned (Some lcm)
                      /\ pair.1 = uri (lcm_document lcm)
                      /\ pair.2 ∈ getLinkedCodePositions lcm
                                    (start (targetSelectionRange definition)))
                 calls.
Proof.
  unfold worker. destruct (isCancellationRequested w); [intros [= <-]; by left|].
  destruct (withLinkedCode _ _ _ _ _ _ _ _) as [[ending st]|] eqn:Erun; [|done].
  apply withLinkedCode_asksMirrors in Erun.
  destruct ending; intros [= <-]; simpl in *;
    (destruct Erun as [->|(calls & -> & Hcalls)]; [by left|right; by exists calls]).
Qed.

(** A link that an analyzer of the plugin can return. *)
Abbreviation candidate api definition :=
  (exists document position w, definition ∈ (api document position w).1).

(** The target of the link is that of a candidate, and so is its origin
    range. *)
Abbreviation fromCandidates api link :=
  ((exists definition,
       candidate api definition
       /\ targetUri link = targetUri definition
       /\ targetRange link = targetRange definition
       /\ targetSelectionRange link = targetSelectionRange definition)
   /\ (exists first,
          candidate api first
          /\ originSelectionRange link = originSelectionRange first)).

Abbreviation addsCandidates api st st' :=
  (exists links, result st' = result st ++ links
                 /\ Forall (fun link => fromCandidates api link) links).







(** X4: when the plugin lacks the requested api and the token is not
    signalled, the worker returns the empty list, not [undefined], and
    invokes nothing. *)
Theorem worker_without_api
    (isCancellationRequested : World -> bool) fuel document position w :
  pluginApi plugin apiName = None ->
  isCancellationRequested w = false ->
  worker context apiName isCancellationRequested plugin (S fuel) document position w
  = Some (mkWorkerRun (Returned (Some [])) w []).
Proof. intros Hapi Htoken. unfold worker. by rewrite Htoken, withLinkedCode_S, Hapi. Qed.

Lemma forDefinitions_without_maps (s : @Search World) originDefinition definitions st :
  Forall (fun definition => linkedCodeMapOf context definition = Returned None)
         definitions ->
  exists st',
    forDefinitions context s originDefinition definitions st = Some (Returned (), st')
    /\ result st' = result st ++ ((fun d => terminalLink d originDefinition) <$> definitions)
    /\ world st' = world st
    /\ invoked st' = invoked st.
Proof.
  intros Hnone. revert st.
  induction Hnone as [|d rest Hd _ IH]; intros st; simpl.
  - eexists. split_and!; [done| |done..]. by rewrite app_nil_r.
  - unfold forDefinition, followMirrors. rewrite Hd.
    destruct (IH (push (terminalLink d originDefinition)
                    (mark (targetUri d) (start (targetRange d)) st)))
      as (st' & -> & Hresult & Hworld & Hinvoked).
    eexists. split_and!; [done| |done..].
    rewrite Hresult. simpl. by rewrite <-(assoc_L (++)).
Qed.

(** X5: when none of the candidates that the analyzer returns at the seed
    has a linked-code map, the worker returns the analyzer's answer as it
    is, in order, after exactly one invocation, with any positive fuel. *)
Theorem worker_without_linked_code
    (isCancellationRequested : World -> bool) api fuel document position w definitions w' :
  pluginApi plugin apiName = Some api ->
  isCancellationRequested w = false ->
  api document position w = (definitions, w') ->
  Forall (fun definition => linkedCodeMapOf context definition = Returned None)
         definitions ->
  worker context apiName isCancellationRequested plugin (S fuel) document position w
  = Some (mkWorkerRun (Returned (Some definitions)) w' [(uri document, position)]).
Proof.
  intros Hapi Htoken Hanswer Hnone. unfold worker.
  rewrite Htoken, withLinkedCode_S, Hapi. cbn [recursiveChecker].
  assert (dedupe.has dedupe.createLocationSet (pointLocation (uri document) position)
          = false) as -> by (apply has_false, not_elem_of_empty).
  unfold invoke, mark. cbn [world recursiveChecker result invoked]. rewrite Hanswer.
  set (st2 := mkSearchState _ _ _ _).
  destruct (forDefinitions_without_maps (search' fuel) None definitions st2 Hnone)
    as (st' & Hrun & Hresult & Hworld & Hinvoked).
  rewrite Hrun, Hresult, Hworld, Hinvoked. subst st2. simpl. by rewrite list_fmap_id.
Qed.

Lemma forDefinitions_app (s : @Search World) originDefinition before after st st1 :
  forDefinitions context s originDefinition before st = Some (Returned (), st1) ->
  forDefinitions context s originDefinition (before ++ after) st
  = forDefinitions context s originDefinition after st1.
Proof.
  revert st. induction before as [|d rest IH]; intros st; simpl; [by intros [= <-]|].
  destruct (forDefinition _ _ _ _ _) as [[[[]|] st2]|]; [|done..]. apply IH.
Qed.

Lemma forDefinitions_marks (s : @Search World) originDefinition definitions st st' :
  Forall (fun definition => linkedCodeMapOf context definition = Returned None)
         definitions ->
  forDefinitions context s originDefinition definitions st = Some (Returned (), st') ->
  recursiveChecker st'
  = list_to_set ((fun d => dedupe.getKey
                             (pointLocation (targetUri d) (start (targetRange d))))
                 <$> definitions)
    ∪ recursiveChecker st.
Proof.
  intros Hnone. revert st.
  induction Hnone as [|d rest Hd _ IH]; intros st; simpl.
  - intros [= <-]. by rewrite (left_id_L ∅ (∪)).
  - unfold forDefinition, followMirrors. rewrite Hd. intros Hrest%IH.
    rewrite Hrest. simpl. unfold dedupe.add.
    rewrite !(assoc_L (∪)). f_equal. apply (comm_L (∪)).
Qed.

(** X24: a lookup that throws ends the run.  When the analyzer's answer
    at the seed is [before ++ bad :: after], no candidate of [before] has a
    linked-code map and the lookup for the target of [bad] throws, the
    callback throws after this one invocation.  The search has by then
    appended the candidates of [before] and put into the set the seed, their
    targets and the target of [bad]; it has not touched [after]. *)
Theorem worker_throws_at_undecodable_target
    (isCancellationRequested : World -> bool) api fuel document position w
    before bad after w' :
  pluginApi plugin apiName = Some api ->
  isCancellationRequested w = false ->
  api document position w = (before ++ bad :: after, w') ->
  Forall (fun definition => linkedCodeMapOf context definition = Returned None) before ->
  linkedCodeMapOf context bad = Raised ->
  worker context apiName isCancellationRequested plugin (S fuel) document position w
  = Some (mkWorkerRun Raised w' [(uri document, position)])
  /\ exists st',
       search' (S fuel) document position None
         (mkSearchState w dedupe.createLocationSet [] [])
       = Some (Raised, st')
       /\ result st' = before
       /\ recursiveChecker st'
          = list_to_set ((fun d => dedupe.getKey
                                     (pointLocation (targetUri d) (start (targetRange d))))
                         <$> (bad :: before))
            ∪ {[dedupe.getKey (pointLocation (uri document) position)]}.
Proof.
  intros Hapi Htoken Hanswer Hnone Hbad.
  assert (exists st',
             search' (S fuel) document position None
               (mkSearchState w dedupe.createLocationSet [] [])
             = Some (Raised, st')
             /\ result st' = before
             /\ world st' = w'
             /\ invoked st' = [(uri document, position)]
             /\ recursiveChecker st'
                = list_to_set ((fun d => dedupe.getKey
                                           (pointLocation (targetUri d)
                                              (start (targetRange d))))
                               <$> (bad :: before))
                  ∪ {[dedupe.getKey (pointLocation (uri document) position)]})
    as (st' & Hrun & Hresult & Hworld & Hinvoked & Hset).
  { rewrite withLinkedCode_S, Hapi. cbn [recursiveChecker].
    assert (dedupe.has dedupe.createLocationSet (pointLocation (uri document) position)
            = false) as -> by (apply has_false, not_elem_of_empty).
    unfold invoke, mark. cbn [world recursiveChecker result invoked]. rewrite Hanswer.
    set (st2 := mkSearchState _ _ _ _).
    destruct (forDefinitions_without_maps (search' fuel) None before st2 Hnone)
      as (st3 & Hbefore & Hresult & Hworld & Hinvoked).
    pose proof (forDefinitions_marks _ _ _ _ _ Hnone Hbefore) as Hmarks.
    rewrite (forDefinitions_app _ _ _ _ _ _ Hbefore).
    cbn [forDefinitions]. unfold forDefinition, followMirrors. rewrite Hbad.
    eexists. split; [done|]. cbn [mark result world invoked recursiveChecker].
    rewrite Hresult, Hworld, Hinvoked, Hmarks. subst st2. simpl.
    split_and!; [by rewrite list_fmap_id|done|done|].
    unfold dedupe.add, dedupe.createLocationSet.
    by rewrite (right_id_L ∅ (∪)), (assoc_L (∪)). }
  split; [|by exists st'].
  unfold worker. by rewrite Htoken, Hrun, Hworld, Hinvoked.
Qed.

End ResolverExtras.

(** ** The projector: links it leaves alone *)

Section ProjectorExtras.
Context {VirtualCode : Type} `{!UriApi}.
Variable context : LanguageServiceContext VirtualCode.
Variable uri' : Uri.
Variable position : Position.

(** X6: the request kind matters only for a link whose target is a
    generated document without a source mapping for its selection range: a
    link whose target does not decode to a generated document, or whose
    target selection range maps, or whose target's lookup throws, is
    projected alike under all kinds; and the type-definition and
    implementation kinds always agree. *)
Theorem projection_kind_matters_only_when_unmapped map link :
  (forall kind1 kind2,
      virtualCodeOf context (targetUri link) = Returned None
      \/ (exists targetVirtualFile,
             virtualCodeOf context (targetUri link) = Returned (Some targetVirtualFile)
             /\ is_Some (getSourceRange (documents_getSourceMap context targetVirtualFile)
                                        (targetSelectionRange link)))
      \/ virtualCodeOf context (targetUri link) = Raised ->
      projectLink context kind1 uri' position map link
      = projectLink context kind2 uri' position map link)
  /\ projectLink context provideTypeDefinition uri' position map link
     = projectLink context provideImplementation uri' position map link.
Proof.
  split.
  - intros kind1 kind2 Hmapped. unfold projectLink.
    destruct (refineOrigin position map link) as [link1|] eqn:Hrefine; [|done].
    destruct (refineOrigin_target _ _ _ _ Hrefine) as (Huri & _ & Hsel).
    unfold projectTarget. rewrite Huri, Hsel.
    destruct Hmapped as [->|[(vf & -> & [mapped Hmapped])| ->]]; [done| |done].
    cbn [bindOutcome]. by rewrite Hmapped.
  - unfold projectLink.
    destruct (refineOrigin position map link) as [link1|]; [|done].
    unfold projectTarget. destruct (virtualCodeOf _ _) as [[vf|]|]; [|done..].
    cbn [bindOutcome]. by destruct (getSourceRange _ _).
Qed.

(** X7: links whose target does not decode to a generated document and
    that carry no origin range (or when the seed has no source map) come out
    of the projector exactly as they went in, whatever the kind. *)
Theorem plain_links_pass_through apiName map data :
  Forall (fun link =>
            virtualCodeOf context (targetUri link) = Returned None
            /\ (originSelectionRange link = None \/ map = None)) data ->
  project context apiName uri' position data map = Returned data.
Proof.
  induction 1 as [|link rest [Hplain Horigin] _ IH]; [done|].
  assert (projectLink context apiName uri' position map link = Returned (Some link))
    as Hlink.
  { unfold projectLink.
    assert (refineOrigin position map link = Some link) as ->.
    { unfold refineOrigin. destruct Horigin as [->| ->]; [done|].
      by destruct (originSelectionRange link). }
    unfold projectTarget. by rewrite Hplain. }
  cbn [project]. by rewrite Hlink, IH.
Qed.

End ProjectorExtras.

(** ** Embedded document addressing: errors and injectivity *)

Section AddressingExtras.
Context `{!UriApi}.
Import languageService.

(** X8: a uri with the embedded-content scheme never decodes to none: it
    decodes to a pair or the decoding throws.  It gives a pair exactly
    when the authority and the path after its first character
    percent-decode and [URI.parse] accepts the decoded path, and the pair
    is what these three calls return; it throws exactly when one of the
    three does. *)
Theorem embedded_scheme_decodes_or_throws maybeEmbeddedContentUri :
  scheme maybeEmbeddedContentUri = embeddedContentScheme ->
  decodeEmbeddedDocumentUri maybeEmbeddedContentUri <> Returned None
  /\ (forall parsed embeddedCodeId,
         decodeEmbeddedDocumentUri maybeEmbeddedContentUri
         = Returned (Some (parsed, embeddedCodeId))
         <-> decodeURIComponent (authority maybeEmbeddedContentUri)
             = Returned embeddedCodeId
             /\ exists documentUri,
                  decodeURIComponent (substring1 (path maybeEmbeddedContentUri))
                  = Returned documentUri
                  /\ URI_parse documentUri = Returned parsed)
  /\ (decodeEmbeddedDocumentUri maybeEmbeddedContentUri = Raised
      <-> decodeURIComponent (authority maybeEmbeddedContentUri) = Raised
          \/ decodeURIComponent (substring1 (path maybeEmbeddedContentUri)) = Raised
          \/ exists documentUri,
               decodeURIComponent (substring1 (path maybeEmbeddedContentUri))
               = Returned documentUri
               /\ URI_parse documentUri = Raised).
Proof.
  intros Hscheme. unfold decodeEmbeddedDocumentUri.
  rewrite bool_decide_eq_true_2 by done.
  destruct (decodeURIComponent (authority _)) as [embeddedCodeId|]; cbn [bindOutcome].
  - destruct (decodeURIComponent (substring1 _)) as [documentUri|]; cbn [bindOutcome].
    + destruct (URI_parse documentUri) as [parsed|] eqn:Eparse; cbn [bindOutcome].
      * split_and!; [done| |].
        -- intros parsed' id'. split.
           ++ intros [= <- <-]. split; [done|]. by exists documentUri.
           ++ intros [[= <-] (documentUri' & [= <-] & Hparsed)]. congruence.
        -- split; [done|]. intros [|[|(documentUri' & [= <-] & Hparsed)]]; congruence.
      * split_and!; [done| |].
        -- intros parsed' id'. split; [done|].
           intros [_ (documentUri' & [= <-] & Hparsed)]. congruence.
        -- split; [|done]. intros _. right. right. by exists documentUri.
    + split_and!; [done| |].
      * intros parsed' id'. split; [done|]. by intros [_ (documentUri' & [=] & _)].
      * split; [|done]. intros _. right. by left.
  - split_and!; [done| |].
    + intros parsed' id'. split; [done|]. by intros [[=] _].
    + split; [|done]. intros _. by left.
Qed.

(** X9: encoding is injective as far as percent-encoding is: two pairs
    with the same encoded uri have the same id and source uris with the same
    string. *)
Theorem encode_embedded_uri_injective
    documentUri1 embeddedContentId1 documentUri2 embeddedContentId2 embedded :
  (forall s1 s2 encoded,
      encodeURIComponent s1 = Returned encoded ->
      encodeURIComponent s2 = Returned encoded -> s1 = s2) ->
  encodeEmbeddedDocumentUri documentUri1 embeddedContentId1 = Returned embedded ->
  encodeEmbeddedDocumentUri documentUri2 embeddedContentId2 = Returned embedded ->
  embeddedContentId1 = embeddedContentId2
  /\ URI_toString documentUri1 = URI_toString documentUri2.
Proof.
  intros Hinj. unfold encodeEmbeddedDocumentUri, URI_from.
  destruct (encodeURIComponent embeddedContentId1) as [id1|] eqn:Eid1; [|done].
  destruct (encodeURIComponent embeddedContentId2) as [id2|] eqn:Eid2; [|done].
  destruct (encodeURIComponent (URI_toString documentUri1)) as [e1|] eqn:Euri1; [|done].
  destruct (encodeURIComponent (URI_toString documentUri2)) as [e2|] eqn:Euri2; [|done].
  simpl. intros [= <-].
  change ("/" +:+ e1) with (String "/" e1). change ("/" +:+ e2) with (String "/" e2).
  intros [= -> ->]. split; by eapply Hinj.
Qed.

End AddressingExtras.

(** ** The document cache: what a request touches *)

Section DocumentsExtras.
Context `{!UriApi}.
Variable toKey : Uri -> string.
Import languageService.

Abbreviation stored' c identity key :=
  (snapshot2Doc c !! identity ≫= fun map : gmap string TextDocument => map !! key).
Abbreviation counter' c key := (default 0 (documentVersions c !! key)).
Abbreviation get' c k :=
  (documents_get toKey c (call_uri k) (call_languageId k) (call_snapshot k)).
Abbreviation pairOf' k := (snapshot_identity (call_snapshot k), toKey (call_uri k)).

Lemma documents_get_stored c uri1 languageId1 snapshot1 doc c1 :
  documents_get toKey c uri1 languageId1 snapshot1 = (doc, c1) ->
  stored' c1 (snapshot_identity snapshot1) (toKey uri1) = Some doc.
Proof.
  destruct (stored' c (snapshot_identity snapshot1) (toKey uri1)) as [d|] eqn:Estored.
  - rewrite (documents_get_hit _ _ _ _ _ _ Estored). by intros [= <- <-].
  - destruct (documents_get_miss toKey c uri1 languageId1 snapshot1 Estored)
      as (c' & -> & _ & Hstored).
    intros [= <- <-]. rewrite Hstored. by rewrite decide_True.
Qed.

(** X10: a request is idempotent: right after a request, any request with
    the same snapshot and uri key returns the same document and leaves the
    cache as it is; the language id it passes and the text of its snapshot
    are ignored. *)
Theorem documents_get_again c uri1 languageId1 snapshot1 doc c1
    uri2 languageId2 snapshot2 :
  documents_get toKey c uri1 languageId1 snapshot1 = (doc, c1) ->
  toKey uri2 = toKey uri1 ->
  snapshot_identity snapshot2 = snapshot_identity snapshot1 ->
  documents_get toKey c1 uri2 languageId2 snapshot2 = (doc, c1).
Proof.
  intros Hfirst%documents_get_stored Hkey Hsnapshot.
  apply documents_get_hit. by rewrite Hkey, Hsnapshot.
Qed.

(** X11: a request touches only its own slot: the counters of all other
    uri keys, and the documents filed for any other snapshot or uri key,
    are as before; and its own counter goes up by one exactly when nothing
    was filed for its pair. *)
Theorem documents_get_frame c uri1 languageId1 snapshot1 doc c1 :
  documents_get toKey c uri1 languageId1 snapshot1 = (doc, c1) ->
  (forall key, key <> toKey uri1 -> counter' c1 key = counter' c key)
  /\ (forall identity key,
         (identity, key) <> (snapshot_identity snapshot1, toKey uri1) ->
         stored' c1 identity key = stored' c identity key)
  /\ counter' c1 (toKey uri1)
     = match stored' c (snapshot_identity snapshot1) (toKey uri1) with
       | Some _ => counter' c (toKey uri1)
       | None => counter' c (toKey uri1) + 1
       end.
Proof.
  destruct (stored' c (snapshot_identity snapshot1) (toKey uri1)) as [d|] eqn:Estored.
  - rewrite (documents_get_hit _ _ _ _ _ _ Estored). by intros [= <- <-].
  - destruct (documents_get_miss toKey c uri1 languageId1 snapshot1 Estored)
      as (c' & -> & Hversions & Hstored).
    intros [= <- <-]. split_and!.
    + intros key Hkey. by rewrite Hversions, lookup_insert_ne.
    + intros identity key Hpair. by rewrite Hstored, decide_False.
    + by rewrite Hversions, lookup_insert_eq.
Qed.

Abbreviation consistent' c :=
  ((forall identity key doc,
       stored' c identity key = Some doc -> version doc < counter' c key)
   /\ (forall identity1 identity2 key doc1 doc2,
         stored' c identity1 key = Some doc1 ->
         stored' c identity2 key = Some doc2 ->
         identity1 <> identity2 -> version doc1 <> version doc2)).

(** Every version below a key's counter is the version of a document filed
    for that key. *)
Abbreviation gapFree c :=
  (forall key v, v < counter' c key ->
                 exists identity doc, stored' c identity key = Some doc /\ version doc = v).

Lemma documents_get_gapFree c k doc c1 :
  gapFree c -> get' c k = (doc, c1) -> gapFree c1.
Proof.
  intros Hgap Hget key v.
  destruct (documents_get_frame _ _ _ _ _ _ Hget) as (Hcounters & Hslots & Hown).
  destruct (decide (key = toKey (call_uri k))) as [->|Hkey].
  - rewrite Hown.
    destruct (stored' c (snapshot_identity (call_snapshot k)) (toKey (call_uri k)))
      as [d|] eqn:Estored.
    + rewrite (documents_get_hit _ _ _ _ _ _ Estored) in Hget. simplify_eq.
      apply Hgap.
    + intros Hv. destruct (decide (v = counter' c (toKey (call_uri k)))) as [->|Hne].
      * destruct (documents_get_miss toKey c (call_uri k) (call_languageId k)
                    (call_snapshot k) Estored) as (c' & Hget' & _).
        rewrite Hget' in Hget. simplify_eq.
        eexists _, _. split; [by eapply documents_get_stored|done].
      * destruct (Hgap (toKey (call_uri k)) v) as (identity & d & Hd & Hversion); [lia|].
        exists identity, d. split; [|done]. rewrite Hslots; [done|].
        intros [= -> ]. congruence.
  - rewrite Hcounters by done. intros (identity & d & Hd & Hversion)%Hgap.
    exists identity, d. split; [|done]. rewrite Hslots; [done|]. by intros [= _ ->].
Qed.

Lemma getAll_versions c calls docs c' :
  consistent' c -> gapFree c ->
  getAll toKey c calls = (docs, c') ->
  forall j k doc v,
    calls !! j = Some k -> docs !! j = Some doc -> v < version doc ->
    (exists i k0 doc0,
        i < j /\ calls !! i = Some k0 /\ docs !! i = Some doc0
        /\ toKey (call_uri k0) = toKey (call_uri k) /\ version doc0 = v)
    \/ (exists identity doc0,
           stored' c identity (toKey (call_uri k)) = Some doc0 /\ version doc0 = v).
Proof.
  revert c docs c'.
  induction calls as [|k0 rest IH]; intros c docs c' Hc Hgap; simpl.
  - intros _ j k doc v Hk. by rewrite lookup_nil in Hk.
  - destruct (get' c k0) as [doc0 c1] eqn:Estep.
    destruct (getAll toKey c1 rest) as [docs1 c2] eqn:Erest.
    intros [= <- <-].
    destruct (documents_get_step toKey _ _ _ _ Hc Estep)
      as (Hc1 & Hfiled & _ & Hnew & _ & Hfirst).
    pose proof (documents_get_gapFree _ _ _ _ Hgap Estep) as Hgap1.
    intros [|j] k doc v; simpl.
    + intros [= <-] [= <-] Hv. right. apply Hgap.
      destruct (stored' c (pairOf' k0).1 (pairOf' k0).2) as [d|] eqn:Estored.
      * rewrite (documents_get_hit _ _ _ _ _ _ Estored) in Estep.
        injection Estep as <- <-.
        destruct Hc as [Hbelow _]. apply Hbelow in Estored. simpl in *. lia.
      * destruct (Hfirst eq_refl) as [Hversion _]. simpl in *. lia.
    + intros Hk Hdoc Hv.
      destruct (IH _ _ _ Hc1 Hgap1 Erest j k doc v Hk Hdoc Hv)
        as [(i & ki & di & Hlt & Hki & Hdi & Hkey & Hversion)
           |(identity & d & Hd & Hversion)].
      * left. exists (S i), ki, di. split_and!; [lia|done..].
      * destruct (Hnew _ _ _ Hd) as [Hold|Hpair].
        -- right. by exists identity, d.
        -- left. exists 0, k0, doc0. simpl in Hpair, Hfiled, Hd.
           injection Hpair as -> Hkey.
           rewrite Hkey, Hfiled in Hd. injection Hd as <-.
           split_and!; [lia|done|done|done|done].
Qed.

(** X12: the versions of a uri have no gaps: in any sequence of requests
    to a fresh cache, a document with version n is handed out only after
    documents with each of the versions 0, ..., n-1 were handed out for the
    same uri key. *)
Theorem versions_have_no_gaps calls j k doc v :
  calls !! j = Some k ->
  (getAll toKey emptyCache calls).1 !! j = Some doc ->
  v < version doc ->
  exists i k0 doc0,
    i < j /\ calls !! i = Some k0
    /\ (getAll toKey emptyCache calls).1 !! i = Some doc0
    /\ toKey (call_uri k0) = toKey (call_uri k) /\ version doc0 = v.
Proof.
  destruct (getAll toKey emptyCache calls) as [docs c'] eqn:Erun. simpl.
  intros Hk Hdoc Hv.
  assert (gapFree emptyCache) as Hgap.
  { intros key v' Hv'. simpl in Hv'. rewrite lookup_empty in Hv'. simpl in Hv'. lia. }
  destruct (getAll_versions emptyCache calls docs c' consistent_empty Hgap Erun
              j k doc v Hk Hdoc Hv) as [Hearlier|(identity & d & Hd & _)]; [done|].
  simpl in Hd. by rewrite lookup_empty in Hd.
Qed.

Lemma getAll_first_request c calls docs c' :
  consistent' c ->
  getAll toKey c calls = (docs, c') ->
  forall j k doc,
    calls !! j = Some k -> docs !! j = Some doc ->
    stored' c (pairOf' k).1 (pairOf' k).2 = Some doc
    \/ exists i k0,
         i <= j /\ calls !! i = Some k0 /\ pairOf' k0 = pairOf' k
         /\ (forall h kh, h < i -> calls !! h = Some kh -> pairOf' kh <> pairOf' k)
         /\ uri doc = URI_toString (call_uri k0)
         /\ languageId doc = call_languageId k0
         /\ text doc = snapshot_text (call_snapshot k0).
Proof.
  revert c docs c'.
  induction calls as [|k0 rest IH]; intros c docs c' Hc Hrun j k doc Hk Hdoc;
    [by rewrite lookup_nil in Hk|].
  pose proof (getAll_run toKey _ _ _ _ Hc Hrun) as (_ & _ & _ & _ & Hfiled & _).
  simpl in Hrun.
  destruct (get' c k0) as [doc0 c1] eqn:Estep.
  destruct (getAll toKey c1 rest) as [docs1 c2] eqn:Erest.
  injection Hrun as <- <-.
  destruct (documents_get_step toKey _ _ _ _ Hc Estep) as (Hc1 & _ & _ & Hnew & _ & _).
  destruct (decide (pairOf' k0 = pairOf' k)) as [Hsame|Hdiff].
  - assert (doc = doc0) as ->.
    { pose proof (Hfiled j k doc Hk Hdoc) as Hj.
      pose proof (Hfiled 0 k0 doc0 eq_refl eq_refl) as H0.
      rewrite Hsame in H0. congruence. }
    destruct (stored' c (pairOf' k0).1 (pairOf' k0).2) as [d|] eqn:Estored.
    + left. rewrite (documents_get_hit _ _ _ _ _ _ Estored) in Estep.
      injection Estep as <- <-. by rewrite <-Hsame.
    + right. exists 0, k0.
      destruct (documents_get_miss toKey c (call_uri k0) (call_languageId k0)
                  (call_snapshot k0) Estored) as (c0 & Hget & _).
      rewrite Hget in Estep. injection Estep as <- <-.
      split_and!; [lia|done|done| |done..]. intros h kh Hh. lia.
  - destruct j as [|j]; [simpl in Hk; by simplify_eq|]. simpl in Hk, Hdoc.
    destruct (IH _ _ _ Hc1 Erest j k doc Hk Hdoc)
      as [Hstored|(i & ki & Hle & Hki & Hpair & Hfresh & Hfields)].
    + left. destruct (Hnew _ _ _ Hstored) as [Hold|Hpair]; [done|].
      destruct Hdiff. by destruct (pairOf' k).
    + right. exists (S i), ki. split_and!; [lia|done|done| |apply Hfields..].
      intros [|h] kh Hh; simpl; [by intros [= <-]|]. apply Hfresh. lia.
Qed.

(** X13: a document carries what the first request for its pair said: in
    any sequence of requests to a fresh cache, the uri string, the language
    id and the text of a returned document are those of the earliest request
    with the same snapshot and uri key, whatever later requests pass. *)
Theorem document_is_of_first_request calls j k doc :
  calls !! j = Some k ->
  (getAll toKey emptyCache calls).1 !! j = Some doc ->
  exists i k0,
    i <= j /\ calls !! i = Some k0
    /\ snapshot_identity (call_snapshot k0) = snapshot_identity (call_snapshot k)
    /\ toKey (call_uri k0) = toKey (call_uri k)
    /\ (forall h kh, h < i -> calls !! h = Some kh -> pairOf' kh <> pairOf' k)
    /\ uri doc = URI_toString (call_uri k0)
    /\ languageId doc = call_languageId k0
    /\ text doc = snapshot_text (call_snapshot k0).
Proof.
  destruct (getAll toKey emptyCache calls) as [docs c'] eqn:Erun. simpl.
  intros Hk Hdoc.
  destruct (getAll_first_request emptyCache calls docs c' consistent_empty Erun
              j k doc Hk Hdoc)
    as [Hstored|(i & k0 & Hle & Hk0 & Hpair & Hfresh & Hfields)].
  - simpl in Hstored. by rewrite lookup_empty in Hstored.
  - exists i, k0. injection Hpair as Hid Hkey.
    destruct Hfields as (Huri & Hlanguage & Htext). by split_and!.
Qed.

End DocumentsExtras.

(** ** The wrapped maps of [context.documents] *)

Section WrapperFacts.
Context `{!UriApi}.
Variable toKey : Uri -> string.
Variable maps_get : documents.VirtualCode -> positive.
Variable scripts_fromVirtualCode : documents.VirtualCode -> documents.Script.
Variable linkedCodeMaps_get : documents.VirtualCode -> option positive.
Import documents.

Abbreviation sourceMapOf s virtualCode :=
  (getSourceMap toKey maps_get scripts_fromVirtualCode s virtualCode).
Abbreviation linkedCodeMapFor s virtualCode documentUri :=
  (getLinkedCodeMap toKey linkedCodeMaps_get s virtualCode documentUri).

Lemma getSourceMap_filed s virtualCode wrapped s1 :
  sourceMapOf s virtualCode = Returned (wrapped, s1) ->
  map2DocMap s1 !! maps_get virtualCode = Some wrapped
  /\ mirrorMap2DocMirrorMap s1 = mirrorMap2DocMirrorMap s.
Proof.
  unfold getSourceMap.
  destruct (map2DocMap s !! maps_get virtualCode) as [result|] eqn:Ehit.
  - by intros [= <- <-].
  - destruct (languageService.encodeEmbeddedDocumentUri _ _) as [embeddedUri|]; [|done].
    simpl. destruct (languageService.documents_get _ _ _ _ _) as [sourceDocument' c1].
    destruct (languageService.documents_get _ _ _ _ _) as [embeddedDocument c2].
    intros [= <- <-]. simpl. by rewrite lookup_insert_eq.
Qed.

Lemma getLinkedCodeMap_keeps_source_maps s virtualCode documentUri answer s1 :
  linkedCodeMapFor s virtualCode documentUri = Returned (answer, s1) ->
  map2DocMap s1 = map2DocMap s.
Proof.
  unfold getLinkedCodeMap.
  destruct (linkedCodeMaps_get virtualCode) as [map|]; [|by intros [= <- <-]].
  destruct (mirrorMap2DocMirrorMap s !! map); [by intros [= <- <-]|].
  destruct (languageService.encodeEmbeddedDocumentUri _ _) as [embeddedUri|]; [|done].
  simpl. destruct (languageService.documents_get _ _ _ _ _) as [document c1].
  by intros [= <- <-].
Qed.

(** X14: the wrapper of a source map is made once: after a request, every
    request that reaches the same underlying map, through whatever virtual
    code, returns the same wrapper and changes nothing (no document is
    made, no version used up), also when requests for linked-code maps come
    in between. *)
Theorem getSourceMap_memoizes s virtualCode wrapped s1 virtualCode2 :
  sourceMapOf s virtualCode = Returned (wrapped, s1) ->
  maps_get virtualCode2 = maps_get virtualCode ->
  sourceMapOf s1 virtualCode2 = Returned (wrapped, s1)
  /\ forall virtualCode3 documentUri answer s2,
       linkedCodeMapFor s1 virtualCode3 documentUri = Returned (answer, s2) ->
       sourceMapOf s2 virtualCode2 = Returned (wrapped, s2).
Proof.
  intros [Hfiled _]%getSourceMap_filed Hsame. split.
  - unfold getSourceMap. by rewrite Hsame, Hfiled.
  - intros virtualCode3 documentUri answer s2 Hkeep%getLinkedCodeMap_keeps_source_maps.
    unfold getSourceMap. by rewrite Hsame, Hkeep, Hfiled.
Qed.

(** X15: the wrapper of a linked-code map is made once, and the document
    uri is read only then: after a request that found a map, every request
    that reaches the same underlying map returns the same wrapper and
    changes nothing, whatever document uri it passes.  A virtual code
    without a linked-code map gives [undefined] and changes nothing. *)
Theorem getLinkedCodeMap_memoizes s virtualCode documentUri wrapped s1 :
  linkedCodeMapFor s virtualCode documentUri = Returned (Some wrapped, s1) ->
  (forall virtualCode2 documentUri2,
      linkedCodeMaps_get virtualCode2 = linkedCodeMaps_get virtualCode ->
      linkedCodeMapFor s1 virtualCode2 documentUri2 = Returned (Some wrapped, s1))
  /\ (forall s' virtualCode2 documentUri2,
         linkedCodeMaps_get virtualCode2 = None ->
         linkedCodeMapFor s' virtualCode2 documentUri2 = Returned (None, s')).
Proof.
  intros Hfirst. split.
  - intros virtualCode2 documentUri2 Hsame. unfold getLinkedCodeMap in *. rewrite Hsame.
    destruct (linkedCodeMaps_get virtualCode) as [map|]; [|by simplify_eq].
    destruct (mirrorMap2DocMirrorMap s !! map) as [result|] eqn:Ehit.
    + injection Hfirst as <- <-. by rewrite Ehit.
    + destruct (languageService.encodeEmbeddedDocumentUri _ _) as [embeddedUri|]; [|done].
      simpl in Hfirst.
      destruct (languageService.documents_get _ _ _ _ _) as [document c1].
      injection Hfirst as <- <-. simpl. by rewrite lookup_insert_eq.
  - intros s' virtualCode2 documentUri2 Hnone. unfold getLinkedCodeMap. by rewrite Hnone.
Qed.

(** X16: the two wrappers of one virtual code hold the same generated
    document.  When the linked-code map is wrapped first, for the source
    script of the virtual code (as the search does), and the source map
    after it (as the projector does), the document of the first is the
    embedded document of the second, and all that wrapping the source map
    does to the document cache is the request for the source document. *)
Theorem wrappers_share_the_generated_document
    s virtualCode linked s1 wrapped s2 :
  (forall map, linkedCodeMaps_get virtualCode = Some map ->
               mirrorMap2DocMirrorMap s !! map = None) ->
  map2DocMap s !! maps_get virtualCode = None ->
  linkedCodeMapFor s virtualCode (script_id (scripts_fromVirtualCode virtualCode))
  = Returned (Some linked, s1) ->
  sourceMapOf s1 virtualCode = Returned (wrapped, s2) ->
  wrapped_embeddedDocument wrapped = linked_document linked
  /\ cache s2
     = (languageService.documents_get toKey (cache s1)
          (script_id (scripts_fromVirtualCode virtualCode))
          (script_languageId (scripts_fromVirtualCode virtualCode))
          (script_snapshot (scripts_fromVirtualCode virtualCode))).2.
Proof.
  intros Hfresh Hnone. unfold getLinkedCodeMap, getSourceMap.
  destruct (linkedCodeMaps_get virtualCode) as [map|]; [|done].
  rewrite (Hfresh map eq_refl).
  destruct (languageService.encodeEmbeddedDocumentUri _ _) as [embeddedUri|]; [|done].
  simpl.
  destruct (languageService.documents_get toKey (cache s) embeddedUri _ _)
    as [document c1] eqn:Egenerated.
  intros [= <- <-]. simpl. rewrite Hnone.
  destruct (languageService.documents_get toKey c1 (script_id _) _ _)
    as [sourceDocument' c2] eqn:Esource.
  destruct (languageService.documents_get toKey c2 embeddedUri _ _)
    as [embeddedDocument c3] eqn:Eagain.
  intros [= <- <-]. simpl.
  pose proof (documents_get_stored toKey _ _ _ _ _ _ Egenerated) as Hstored.
  assert (languageService.snapshot2Doc c2
            !! languageService.snapshot_identity (vc_snapshot virtualCode)
            ≫= (fun map' : gmap string TextDocument => map' !! toKey embeddedUri)
          = Some document) as Hstill.
  { destruct (decide ((languageService.snapshot_identity (vc_snapshot virtualCode),
                       toKey embeddedUri)
                      = (languageService.snapshot_identity
                           (script_snapshot (scripts_fromVirtualCode virtualCode)),
                         toKey (script_id (scripts_fromVirtualCode virtualCode)))))
      as [Hsame|Hother].
    - injection Hsame as Hid Hkey. rewrite Hid, Hkey in Hstored.
      rewrite (documents_get_hit toKey _ _ _ _ _ Hstored) in Esource.
      injection Esource as <- <-. by rewrite Hid, Hkey.
    - destruct (documents_get_frame toKey _ _ _ _ _ _ Esource) as (_ & Hslots & _).
      by rewrite Hslots. }
  rewrite (documents_get_hit toKey _ _ _ _ _ Hstill) in Eagain.
  by injection Eagain as <- <-.
Qed.

End WrapperFacts.

(** ** [context.inject] *)

Section InjectFacts.
Context {Args Result : Type}.
Implicit Types plugins : list (InjectablePlugin Args Result).

(** X17: [inject] answers with the first plugin, in registration order,
    that is not disabled and provides the key: it answers [result] exactly
    when the plugins split into plugins that are disabled or lack the key,
    then a plugin that is enabled and provides a function for the key whose
    value at the arguments is [result]. *)
Theorem inject_first_enabled_provider plugins disabled key (args : Args) result :
  inject plugins disabled key args = Some result
  <-> exists before plugin after table provide',
        plugins = before ++ plugin :: after
        /\ Forall (fun skipped =>
                     instance_identity skipped ∈ disabled
                     \/ (provide skipped ≫= (fun table => table !! key)) = None)
                  before
        /\ (instance_identity plugin ∉ disabled)
        /\ provide plugin = Some table
        /\ table !! key = Some provide'
        /\ result = provide' args.
Proof.
  induction plugins as [|plugin rest IH]; simpl.
  - split; [done|]. intros (before & ? & ? & ? & ? & Hsplit & _).
    by destruct before.
  - case_bool_decide as Hdisabled.
    + rewrite IH. split.
      * intros (before & p & after & table & f & -> & Hskipped & Hrest).
        exists (plugin :: before), p, after, table, f.
        split; [done|]. split; [|done]. apply Forall_cons. split; [by left|done].
      * intros (before & p & after & table & f & Hsplit & Hskipped & Henabled & Hrest).
        destruct before as [|first before]; simpl in Hsplit; simplify_eq; [done|].
        apply Forall_cons in Hskipped as [_ Hskipped].
        by exists before, p, after, table, f.
    + destruct (provide plugin ≫= (fun table => table !! key)) as [f|] eqn:Eprovide.
      * split.
        -- intros [= <-]. destruct (provide plugin) as [table|] eqn:Etable; [|done].
           simpl in Eprovide. by exists [], plugin, rest, table, f.
        -- intros (before & p & after & table & g & Hsplit & Hskipped & Henabled
                   & Htable & Hkey & ->).
           destruct before as [|first before]; simpl in Hsplit; simplify_eq.
           ++ rewrite Htable in Eprovide. simpl in Eprovide. congruence.
           ++ apply Forall_cons in Hskipped as [[?|Hlacks] _]; [done|congruence].
      * rewrite IH. split.
        -- intros (before & p & after & table & g & -> & Hskipped & Hrest).
           exists (plugin :: before), p, after, table, g.
           split; [done|]. split; [|done]. apply Forall_cons. split; [by right|done].
        -- intros (before & p & after & table & g & Hsplit & Hskipped & Henabled
                   & Htable & Hkey & ->).
           destruct before as [|first before]; simpl in Hsplit; simplify_eq.
           ++ rewrite Htable in Eprovide. simpl in Eprovide. congruence.
           ++ apply Forall_cons in Hskipped as [_ Hskipped].
              by exists before, p, after, table, g.
Qed.

(** X18: disabling plugins is the same as not registering them: [inject]
    answers as it would with the disabled plugins removed and nothing
    disabled. *)
Theorem inject_ignores_disabled_plugins plugins disabled key (args : Args) :
  inject plugins disabled key args
  = inject (filter (fun plugin => instance_identity plugin ∉ disabled) plugins) ∅ key args.
Proof.
  induction plugins as [|plugin rest IH]; [done|]. simpl.
  case_bool_decide as Hdisabled.
  - rewrite filter_cons_False by (by intros ?). done.
  - rewrite filter_cons_True by done. simpl.
    rewrite bool_decide_eq_false_2 by apply not_elem_of_empty.
    by rewrite IH.
Qed.

End InjectFacts.

(** ** [context.commands] *)

Section CommandFacts.
Import commands.

(** X19: the three recognisers tell the three commands apart: each
    recognises what its own [create] builds, whatever the arguments, and no
    command is recognised by two of them. *)
Theorem command_recognisers_are_exclusive :
  (forall u p, rename_is (rename_create u p) = true)
  /\ (forall u p locations, showReferences_is (showReferences_create u p locations) = true)
  /\ (forall p, setSelection_is (setSelection_create p) = true)
  /\ (forall c, rename_is c = true ->
                showReferences_is c = false /\ setSelection_is c = false)
  /\ (forall c, showReferences_is c = true ->
                rename_is c = false /\ setSelection_is c = false)
  /\ (forall c, setSelection_is c = true ->
                rename_is c = false /\ showReferences_is c = false).
Proof.
  unfold rename_is, showReferences_is, setSelection_is.
  split_and!; try done.
  all: intros c Hc%bool_decide_eq_true; rewrite Hc; by split.
Qed.

(** X20: [setSelection] carries a collapsed selection in the editor's
    1-based coordinates: start and end coincide, every coordinate is at
    least 1, taking 1 off gives the position back, and so different
    positions give different commands. *)
Theorem setSelection_is_one_based position :
  (exists selection,
      arguments (setSelection_create position) = [SelectionArgument selection]
      /\ selectionStartLineNumber selection = positionLineNumber selection
      /\ selectionStartColumn selection = positionColumn selection
      /\ 1 <= positionLineNumber selection
      /\ 1 <= positionColumn selection
      /\ mkPosition (positionLineNumber selection - 1) (positionColumn selection - 1)
         = position)
  /\ forall position',
       setSelection_create position = setSelection_create position' ->
       position = position'.
Proof.
  split.
  - eexists. split; [done|]. simpl. split_and!; [done|done|lia|lia|].
    destruct position. simpl. f_equal; lia.
  - intros position'. destruct position, position'. unfold setSelection_create. simpl.
    intros [= Hline Hcharacter]. f_equal; lia.
Qed.

Lemma length_append (s t : string) :
  String.length (s +:+ t) = String.length s + String.length t.
Proof.
  induction s as [|c s IH]; [done|].
  change (String c s +:+ t) with (String c (s +:+ t)). simpl. by rewrite IH.
Qed.

Lemma append_cancel_r (s1 s2 t : string) : s1 +:+ t = s2 +:+ t -> s1 = s2.
Proof.
  revert s2. induction s1 as [|c1 s1 IH]; intros [|c2 s2] Heq; [done|..].
  - apply (f_equal String.length) in Heq.
    change (String c2 s2 +:+ t) with (String c2 (s2 +:+ t)) in Heq.
    change ("" +:+ t) with t in Heq. simpl in Heq. rewrite length_append in Heq. lia.
  - apply (f_equal String.length) in Heq.
    change (String c1 s1 +:+ t) with (String c1 (s1 +:+ t)) in Heq.
    change ("" +:+ t) with t in Heq. simpl in Heq. rewrite length_append in Heq. lia.
  - change (String c1 s1 +:+ t) with (String c1 (s1 +:+ t)) in Heq.
    change (String c2 s2 +:+ t) with (String c2 (s2 +:+ t)) in Heq.
    injection Heq as -> Heq. f_equal. by apply IH.
Qed.

Lemma pretty_N_go_nonempty (x : N) (s : string) : s <> "" -> pretty_N_go x s <> "".
Proof.
  revert s. induction (N.lt_wf_0 x) as [x _ IH]; intros s Hs.
  destruct (decide (x = 0)%N) as [->|Hx]; [by rewrite pretty_N_go_0|].
  rewrite pretty_N_go_step by lia. apply IH; [|done].
  apply N.div_lt; lia.
Qed.

Lemma pretty_nat_nonempty (n : nat) : pretty n <> "".
Proof.
  unfold pretty, pretty_nat, pretty, pretty_N.
  case_decide; [done|]. rewrite pretty_N_go_step by lia.
  by apply pretty_N_go_nonempty.
Qed.

(** X21: the title of [showReferences] counts the locations: it reads
    "1 reference" exactly when there is one location, and commands for
    different numbers of locations have different titles. *)
Theorem showReferences_title_counts u p locations :
  (title (showReferences_create u p locations) = "1 reference" <-> length locations = 1)
  /\ forall u' p' locations',
       title (showReferences_create u p locations)
       = title (showReferences_create u' p' locations') ->
       length locations = length locations'.
Proof.
  assert (forall n : nat, pretty n +:+ " references" <> "1 reference") as Hplural.
  { intros n Heq. apply (f_equal String.length) in Heq.
    rewrite length_append in Heq. simpl in Heq.
    pose proof (pretty_nat_nonempty n) as Hn.
    destruct (pretty n); [done|]. simpl in Heq. lia. }
  simpl. split.
  - case_bool_decide; [done|]. split; [by intros ?%Hplural|done].
  - intros u' p' locations'. repeat case_bool_decide; try congruence; intros Heq.
    all: first [ by apply Hplural in Heq
               | by symmetry in Heq; apply Hplural in Heq
               | by apply append_cancel_r, (inj pretty) in Heq ].
Qed.

End CommandFacts.

(** ** The capability getters *)

Lemma spreadSet_step (inserted values : list string) :
  NoDup inserted ->
  let result' :=
    foldl (fun inserted value =>
             if bool_decide (value ∈ inserted) then inserted else inserted ++ [value])
          inserted values in
  NoDup result'
  /\ (forall value, value ∈ result' <-> value ∈ inserted \/ value ∈ values)
  /\ inserted `prefix_of` result'
  /\ (NoDup (inserted ++ values) -> result' = inserted ++ values).
Proof.
  revert inserted. induction values as [|value rest IH]; intros inserted Hnodup; simpl.
  - split_and!; [done| |done|by rewrite app_nil_r].
    intros value. split; [by left|]. intros [|Hnil]; [done|]. by apply not_elem_of_nil in Hnil.
  - case_bool_decide as Hin.
    + destruct (IH inserted Hnodup) as (Hnd & Hmem & Hpre & Hid). split_and!; [done| |done|].
      * intros x. rewrite Hmem, elem_of_cons. split; [intros [|]; auto|].
        intros [|[->|]]; auto.
      * intros Hall. apply NoDup_app in Hall as (_ & Hdisjoint & _).
        destruct (Hdisjoint value Hin). by left.
    + assert (NoDup (inserted ++ [value])) as Hnodup'.
      { apply NoDup_app. split_and!; [done| |apply NoDup_singleton].
        by intros x Hx ->%list_elem_of_singleton. }
      destruct (IH _ Hnodup') as (Hnd & Hmem & Hpre & Hid). split_and!; [done| | |].
      * intros x. rewrite Hmem, elem_of_app, list_elem_of_singleton, elem_of_cons. tauto.
      * etrans; [|exact Hpre]. by apply prefix_app_r.
      * intros Hall. rewrite Hid; rewrite <-(assoc_L (++)); done.
Qed.

(** X22: the semantic token legend lists every token type (and every
    token modifier) of every plugin's legend exactly once; entries keep the
    order of their first occurrence, so when no entry is repeated the legend
    is the plain concatenation in plugin order, and registering more plugins
    at the end only appends to the legend (the indices of the entries that
    were there do not move). *)
Theorem semantic_token_legend_is_duplicate_free plugins :
  let typesOf := fun capabilities =>
    default [] (tokenTypes <$> (semanticTokensProvider capabilities ≫= legend)) in
  let modifiersOf := fun capabilities =>
    default [] (tokenModifiers <$> (semanticTokensProvider capabilities ≫= legend)) in
  NoDup (tokenTypes (getSemanticTokenLegend plugins))
  /\ NoDup (tokenModifiers (getSemanticTokenLegend plugins))
  /\ (forall tokenType,
         tokenType ∈ tokenTypes (getSemanticTokenLegend plugins)
         <-> exists capabilities, capabilities ∈ plugins /\ tokenType ∈ typesOf capabilities)
  /\ (forall modifier,
         modifier ∈ tokenModifiers (getSemanticTokenLegend plugins)
         <-> exists capabilities, capabilities ∈ plugins /\ modifier ∈ modifiersOf capabilities)
  /\ (NoDup (flatMap typesOf plugins) ->
      tokenTypes (getSemanticTokenLegend plugins) = flatMap typesOf plugins)
  /\ (forall more,
         tokenTypes (getSemanticTokenLegend plugins)
           `prefix_of` tokenTypes (getSemanticTokenLegend (plugins ++ more))
         /\ tokenModifiers (getSemanticTokenLegend plugins)
              `prefix_of` tokenModifiers (getSemanticTokenLegend (plugins ++ more))).
Proof.
  intros typesOf modifiersOf.
  assert (forall (f : Capabilities -> list string) x,
             x ∈ flatMap f plugins <-> exists capabilities, capabilities ∈ plugins /\ x ∈ f capabilities)
    as Hflat.
  { intros f x. unfold flatMap. rewrite list_elem_of_In, in_concat. split.
    - intros (l & (capabilities & <- & Hin)%in_map_iff & Hx). exists capabilities.
      by rewrite !list_elem_of_In.
    - intros (capabilities & Hin%list_elem_of_In & Hx%list_elem_of_In).
      exists (f capabilities). split; [by apply in_map|done]. }
  assert (forall (f : Capabilities -> list string) more,
             spreadSet (flatMap f plugins) `prefix_of` spreadSet (flatMap f (plugins ++ more)))
    as Hprefix.
  { intros f more. unfold spreadSet, flatMap. rewrite map_app, concat_app, foldl_app.
    apply spreadSet_step.
    apply (spreadSet_step [] (concat (map f plugins))). apply NoDup_nil_2. }
  assert (forall plugins', tokenTypes (getSemanticTokenLegend plugins')
                           = spreadSet (flatMap typesOf plugins')) as Htypes by done.
  assert (forall plugins', tokenModifiers (getSemanticTokenLegend plugins')
                           = spreadSet (flatMap modifiersOf plugins')) as Hmodifiers by done.
  rewrite !Htypes, !Hmodifiers.
  destruct (spreadSet_step [] (flatMap typesOf plugins) (NoDup_nil_2))
    as (Hnd1 & Hmem1 & _ & Hid1).
  destruct (spreadSet_step [] (flatMap modifiersOf plugins) (NoDup_nil_2))
    as (Hnd2 & Hmem2 & _ & _).
  split_and!; [exact Hnd1|exact Hnd2| | |exact Hid1|].
  - intros x. unfold spreadSet. rewrite Hmem1, <-Hflat. split; [intros [Hnil|]|by right]; [|done].
    by apply not_elem_of_nil in Hnil.
  - intros x. unfold spreadSet. rewrite Hmem2, <-Hflat. split; [intros [Hnil|]|by right]; [|done].
    by apply not_elem_of_nil in Hnil.
  - intros more. rewrite !Htypes, !Hmodifiers. split; apply Hprefix.
Qed.

Lemma flatMap_app {A B : Type} (f : A -> list B) (plugins more : list A) :
  flatMap f (plugins ++ more) = flatMap f plugins ++ flatMap f more.
Proof. unfold flatMap. by rewrite map_app, concat_app. Qed.

Lemma flatMap_occurrences {A : Type} (f : A -> list string) (plugins : list A) (x : string) :
  length (filter (x =.) (flatMap f plugins))
  = sum_list ((fun plugin => length (filter (x =.) (f plugin))) <$> plugins).
Proof.
  induction plugins as [|plugin rest IH]; [done|].
  change (flatMap f (plugin :: rest)) with (f plugin ++ flatMap f rest).
  rewrite filter_app, length_app, IH. done.
Qed.

(** X23: the four trigger character getters, unlike the legend, remove no
    duplicates: a character occurs in the answer as often as it occurs in
    all the plugins' lists together (a plugin without the provider or
    without the list counts for none), and the answer for [plugins ++ more]
    is the answer for [plugins] followed by the answer for [more]. *)
Theorem trigger_characters_keep_duplicates plugins :
  let occurrences := fun (character : string) (characters : option (list string)) =>
    length (filter (character =.) (default [] characters)) in
  (forall character,
      length (filter (character =.) (getTriggerCharacters plugins))
      = sum_list ((fun capabilities =>
                     occurrences character
                       (completionProvider capabilities ≫= completion_triggerCharacters))
                  <$> plugins)
      /\ length (filter (character =.) (getAutoFormatTriggerCharacters plugins))
         = sum_list ((fun capabilities =>
                        occurrences character
                          (documentOnTypeFormattingProvider capabilities
                             ≫= formatting_triggerCharacters))
                     <$> plugins)
      /\ length (filter (character =.) (getSignatureHelpTriggerCharacters plugins))
         = sum_list ((fun capabilities =>
                        occurrences character
                          (signatureHelpProvider capabilities ≫= signature_triggerCharacters))
                     <$> plugins)
      /\ length (filter (character =.) (getSignatureHelpRetriggerCharacters plugins))
         = sum_list ((fun capabilities =>
                        occurrences character
                          (signatureHelpProvider capabilities
                             ≫= signature_retriggerCharacters))
                     <$> plugins))
  /\ (forall more,
         getTriggerCharacters (plugins ++ more)
         = getTriggerCharacters plugins ++ getTriggerCharacters more
         /\ getAutoFormatTriggerCharacters (plugins ++ more)
            = getAutoFormatTriggerCharacters plugins ++ getAutoFormatTriggerCharacters more
         /\ getSignatureHelpTriggerCharacters (plugins ++ more)
            = getSignatureHelpTriggerCharacters plugins
              ++ getSignatureHelpTriggerCharacters more
         /\ getSignatureHelpRetriggerCharacters (plugins ++ more)
            = getSignatureHelpRetriggerCharacters plugins
              ++ getSignatureHelpRetriggerCharacters more).
Proof.
  intros occurrences. split.
  - intros character. split_and!; apply flatMap_occurrences.
  - intros more. split_and!; apply flatMap_app.
Qed.

(** ** The properties at work in the scenarios *)

#[local] Existing Instance Scenario.plainUriApi.

Import Scenario.

Lemma percentDecode_encodeChar c rest :
  percentDecode (percentEncodeChar c +:+ rest)
  = bindOutcome (percentDecode rest) (fun decoded => Returned (String c decoded)).
Proof. by destruct c as [[] [] [] [] [] [] [] []]. Qed.

(** In the stand-in library, decoding undoes encoding on every string,
    reserved characters and upper case included. *)
Lemma percentDecode_percentEncode s : percentDecode (percentEncode s) = Returned s.
Proof.
  induction s as [|c rest IH]; [done|].
  cbn [percentEncode]. by rewrite percentDecode_encodeChar, IH.
Qed.

Lemma percentDecode_inverts s encoded :
  encodeURIComponent s = Returned encoded -> decodeURIComponent encoded = Returned s.
Proof. intros [= <-]. apply percentDecode_percentEncode. Qed.

(** The worked example of the specification: the seed [T.gen:(20,10)] for
    the query [T:(5,3)], one candidate whose name at [(2,5)] mirrors
    [(45,1)], which maps to [T:(1,8)-(1,14)]. *)
Example worked_scenario :
  exists run links,
    worker context provideDefinition isCancellationRequested plugin 3 Tgen (pos 20 10) false
    = Some run
    /\ returned run = Returned (Some links)
    /\ project context provideDefinition T (pos 5 3) links (Some TgenSourceMap)
       = Returned [mkLocationLink (Some (span 5 1 5 7)) (URI_toString T)
                                  (span 1 8 1 14) (span 1 8 1 14)].
Proof. eexists _, _. split_and!; [vm_compute; reflexivity|reflexivity|by vm_compute]. Qed.

(** With mirrors that point at each other the search stops after visiting
    each position once. *)
Example cyclic_scenario :
  exists run,
    worker cyclicContext provideDefinition isCancellationRequested plugin 4 Tgen (pos 20 10) false
    = Some run
    /\ analyzerCalls run = [(uri Tgen, pos 20 10); (uri Tgen, pos 45 1); (uri Tgen, pos 2 5)]
    /\ returned run = Returned (Some [C1]).
Proof. eexists. split_and!; [vm_compute; reflexivity|by vm_compute..]. Qed.

Lemma candidate_omitted_iff_mirror_followed_witness :
  pluginApi plugin provideDefinition = Some analyzer
  /\ forDefinition context (withLinkedCode context provideDefinition plugin 2)
       None C1 (afterSeedCall false) = Some (Returned (), afterC1)
  /\ (length (invoked (afterSeedCall false)) < length (invoked afterC1)
      <-> hasUnvisitedMirror context C1 (atMirrorCall false) = Returned true)
  /\ forDefinition context (withLinkedCode context provideDefinition plugin 0)
       (Some C1) C2 (atMirrorCall false)
     = Some (Returned (),
             push (terminalLink C2 (Some C1))
               (mark (targetUri C2) (start (targetRange C2)) (atMirrorCall false))).
Proof.
  assert (pluginApi plugin provideDefinition = Some analyzer) as Hapi by reflexivity.
  assert (forDefinition context (withLinkedCode context provideDefinition plugin 2)
            None C1 (afterSeedCall false) = Some (Returned (), afterC1)) as Hrun
    by (vm_compute; reflexivity).
  assert (hasUnvisitedMirror context C2
            (mark (targetUri C2) (start (targetRange C2)) (atMirrorCall false))
          = Returned false) as Hvisited by (vm_compute; reflexivity).
  split_and!; [exact Hapi|exact Hrun| |].
  - exact (proj1 (proj2 (proj1 (proj2 (proj2 (candidate_omitted_iff_mirror_followed
             context provideDefinition plugin 2 analyzer None C1
             (afterSeedCall false) Hapi))) afterC1 Hrun))).
  - exact (proj1 (proj2 (candidate_omitted_iff_mirror_followed
             context provideDefinition plugin 0 analyzer (Some C1) C2
             (atMirrorCall false) Hapi)) Hvisited).
Defined.

Lemma cyclicMirrors_closed definition lcm q :
  linkedCodeMapOf cyclicContext definition = Returned (Some lcm) ->
  q ∈ getLinkedCodePositions lcm (start (targetSelectionRange definition)) ->
  dedupe.getKey (pointLocation (uri (lcm_document lcm)) q) ∈ mirrorPairs.
Proof.
  unfold linkedCodeMapOf.
  destruct (virtualCodeOf cyclicContext (targetUri definition)) as [[virtualCode|]|];
    destruct (sourceScriptOf cyclicContext (targetUri definition)) as [[sourceScript|]|];
    cbn [bindOutcome]; try done.
  unfold cyclicContext, contextWith. cbn [documents_getLinkedCodeMap].
  case_bool_decide; [|done]. intros [= <-].
  unfold cyclicMirrors. cbn [getLinkedCodePositions lcm_document].
  unfold mirrorPairs.
  repeat case_bool_decide; intros Hq.
  - apply list_elem_of_singleton in Hq as ->. apply elem_of_union_r. by apply elem_of_singleton.
  - apply list_elem_of_singleton in Hq as ->. apply elem_of_union_l. by apply elem_of_singleton.
  - by apply not_elem_of_nil in Hq.
Qed.

Lemma withLinkedCode_terminates_witness :
  exists fuel ending st',
    (forall fuel', fuel <= fuel' ->
       withLinkedCode cyclicContext provideDefinition plugin fuel' Tgen (pos 20 10) None
                      (emptyState false) = Some (ending, st'))
    /\ length (invoked st')
       <= length (invoked (emptyState false))
          + size (({[dedupe.getKey (pointLocation (uri Tgen) (pos 20 10))]} ∪ mirrorPairs)
                  ∖ recursiveChecker (emptyState false)).
Proof.
  destruct (withLinkedCode_terminates cyclicContext provideDefinition plugin mirrorPairs
              cyclicMirrors_closed Tgen (pos 20 10) None (emptyState false))
    as (fuel & ending & st' & Hrun & _ & _ & _ & Hbound).
  by exists fuel, ending, st'.
Defined.

Lemma origin_propagates_witness :
  forDefinition context (withLinkedCode context provideDefinition plugin 2)
    None C1 (afterSeedCall false) = Some (Returned (), afterC1)
  /\ exists links,
       result afterC1 = result (afterSeedCall false) ++ links
       /\ Forall (fun link => originSelectionRange link = originSelectionRange C1) links
       /\ forall map link link',
            link ∈ links ->
            projectLink context provideDefinition T (pos 5 3) map link
            = Returned (Some link') ->
            originSelectionRange link'
            = match originSelectionRange C1, map with
              | Some origin, Some map' =>
                  toSourcePositionPreferSurroundedPosition map' origin (pos 5 3)
              | origin, _ => origin
              end.
Proof.
  assert (forDefinition context (withLinkedCode context provideDefinition plugin 2)
            None C1 (afterSeedCall false) = Some (Returned (), afterC1)) as Hrun
    by (vm_compute; reflexivity).
  split; [exact Hrun|].
  exact (origin_propagates context T (pos 5 3) provideDefinition plugin 2 None C1
           (afterSeedCall false) (Returned ()) afterC1 Hrun).
Defined.

Import ServiceScenario.

(** C4, as stated, fails for a uri with an upper-case authority: the uri
    library prints the authority in lower case, so what the decoder parses
    is not the uri that was encoded.  The percent-coding round trips; the
    id comes back; the uri does not. *)
Lemma upper_case_authority_is_not_restored :
  (forall s encoded,
      @encodeURIComponent lowerCasingUriApi s = Returned encoded ->
      @decodeURIComponent lowerCasingUriApi encoded = Returned s)
  /\ @URI_toString lowerCasingUriApi upperCaseUri = "http://example.com/T.vue"
  /\ exists embedded,
       @languageService.encodeEmbeddedDocumentUri lowerCasingUriApi upperCaseUri "ts"
       = Returned embedded
       /\ @languageService.decodeEmbeddedDocumentUri lowerCasingUriApi embedded
          = Returned (Some (lowerCaseUri, "ts"))
       /\ @languageService.decodeEmbeddedDocumentUri lowerCasingUriApi embedded
          <> Returned (Some (upperCaseUri, "ts")).
Proof.
  split_and!; [intros s encoded; exact (percentDecode_inverts s encoded)|reflexivity|].
  eexists. split_and!; [vm_compute; reflexivity|by vm_compute|by vm_compute].
Qed.

Lemma decode_encode_embedded_uri_witness :
  exists embedded,
    languageService.encodeEmbeddedDocumentUri O "Script_TS/1" = Returned embedded
    /\ authority embedded = "Script_TS%2F1"
    /\ path embedded = "/file%3A%2F%2F%2FMy%20Dir%2FOther.vue"
    /\ URI_parse (URI_toString O) = Returned O
    /\ languageService.decodeEmbeddedDocumentUri embedded
       = Returned (Some (O, "Script_TS/1")).
Proof.
  eexists. split; [vm_compute; reflexivity|]. split_and!; [reflexivity..|].
  apply (proj2 (proj1 (decode_encode_embedded_uri O "Script_TS/1" percentDecode_inverts)
                  _ eq_refl)).
  reflexivity.
Defined.

(** C5, as stated, fails: the seed's candidate [C1] is named at [(2,5)]
    and its declaration starts at [(2,0)].  When its iteration ends,
    ([targetUri], [targetSelectionRange.start]) is not in the set, and a
    later search call at that very position does descend: it invokes the
    analyzer there. *)
Lemma selection_start_is_not_marked :
  forDefinition context (withLinkedCode context provideDefinition plugin 2)
    None C1 (afterSeedCall false) = Some (Returned (), afterC1)
  /\ dedupe.has (recursiveChecker afterC1)
       (pointLocation (targetUri C1) (start (targetSelectionRange C1))) = false
  /\ (fun ended => invoked ended.2)
       <$> withLinkedCode context provideDefinition plugin 2 Tgen
             (start (targetSelectionRange C1)) None afterC1
     = Some (invoked afterC1 ++ [(uri Tgen, start (targetSelectionRange C1))]).
Proof. split_and!; by vm_compute. Qed.

Lemma candidate_target_marked_witness :
  forDefinition context (withLinkedCode context provideDefinition plugin 2)
    None C1 (afterSeedCall false) = Some (Returned (), afterC1)
  /\ dedupe.has (recursiveChecker afterC1)
       (pointLocation (targetUri C1) (start (targetRange C1))) = true
  /\ withLinkedCode context provideDefinition plugin 1 Tgen (start (targetRange C1)) None afterC1
     = Some (Returned (), afterC1).
Proof.
  assert (forDefinition context (withLinkedCode context provideDefinition plugin 2)
            None C1 (afterSeedCall false) = Some (Returned (), afterC1)) as Hrun
    by (vm_compute; reflexivity).
  destruct (candidate_target_marked context provideDefinition plugin 2 None C1
              (afterSeedCall false) (Returned ()) afterC1 Hrun) as (Hmarked & _ & Hlater).
  split_and!; [exact Hrun|exact Hmarked|].
  exact (Hlater 0 Tgen None eq_refl).
Defined.


(** C7, as stated, fails: [C4] targets the generated document of [O], its
    target selection range has no source mapping and [O] is not the queried
    document [T], yet under the plain definition kind no stub is emitted:
    its origin range does not map back through the seed's map, so the link
    is dropped before its target is looked at. *)
Lemma unmapped_origin_preempts_stub :
  virtualCodeOf context (targetUri C4) = Returned (Some (URI_toString O))
  /\ getSourceRange (documents_getSourceMap context (URI_toString O))
       (targetSelectionRange C4) = None
  /\ uri (sourceDocument (documents_getSourceMap context (URI_toString O))) <> URI_toString T
  /\ projectLink context provideDefinition T (pos 5 3) (Some TgenSourceMap) C4
     = Returned None
  /\ project context provideDefinition T (pos 5 3) [C4] (Some TgenSourceMap) = Returned [].
Proof. split_and!; by vm_compute. Qed.

Lemma unmapped_definition_target_stub_witness :
  refineOrigin (pos 5 3) (Some TgenSourceMap) C3 = Some C3
  /\ virtualCodeOf context (targetUri C3) = Returned (Some (URI_toString O))
  /\ getSourceRange (documents_getSourceMap context (URI_toString O))
       (targetSelectionRange C3) = None
  /\ projectLink context provideDefinition T (pos 5 3) (Some TgenSourceMap) C3
     = Returned (Some (mkLocationLink None (URI_toString O) zeroRange zeroRange))
  /\ projectLink context provideDefinition O (pos 5 3) (Some TgenSourceMap) C3
     = Returned None.
Proof.
  assert (virtualCodeOf context (targetUri C3) = Returned (Some (URI_toString O))) as Hvf
    by (vm_compute; reflexivity).
  split_and!; [reflexivity|exact Hvf|reflexivity| |].
  - refine (proj1 (unmapped_definition_target_stub context T (pos 5 3)
                     (Some TgenSourceMap) C3 C3 (URI_toString O) eq_refl Hvf eq_refl) _).
    by vm_compute.
  - exact (proj2 (unmapped_definition_target_stub context O (pos 5 3)
                    (Some TgenSourceMap) C3 C3 (URI_toString O) eq_refl Hvf eq_refl)
                 eq_refl).
Defined.





Lemma documents_get_memoizes_and_versions_witness :
  (languageService.getAll printUri languageService.emptyCache requests).1
  = [mkTextDocument "file:///T.vue" "vue" 0 "a";
     mkTextDocument "file:///My Dir/Other.vue" "vue" 0 "a";
     mkTextDocument "file:///T.vue" "vue" 1 "b";
     mkTextDocument "file:///T.vue" "vue" 0 "a"]
  /\ version (mkTextDocument "file:///T.vue" "vue" 0 "a")
     <> version (mkTextDocument "file:///T.vue" "vue" 1 "b")
  /\ version (mkTextDocument "file:///T.vue" "vue" 0 "a")
     < version (mkTextDocument "file:///T.vue" "vue" 1 "b").
Proof.
  assert ((languageService.getAll printUri languageService.emptyCache requests).1
          = [mkTextDocument "file:///T.vue" "vue" 0 "a";
             mkTextDocument "file:///My Dir/Other.vue" "vue" 0 "a";
             mkTextDocument "file:///T.vue" "vue" 1 "b";
             mkTextDocument "file:///T.vue" "vue" 0 "a"]) as Hdocs by (by vm_compute).
  assert (0 < 2) as Hlt by lia.
  destruct (documents_get_memoizes_and_versions printUri requests 0 2
              (languageService.mkGetCall T "vue" snapshotA)
              (languageService.mkGetCall T "vue" snapshotB)
              (mkTextDocument "file:///T.vue" "vue" 0 "a")
              (mkTextDocument "file:///T.vue" "vue" 1 "b")
              Hlt eq_refl eq_refl (f_equal (.!! 0) Hdocs) (f_equal (.!! 2) Hdocs) eq_refl)
    as (_ & Hdistinct & Horder).
  split_and!; [exact Hdocs| |].
  - apply Hdistinct. by intros [=].
  - apply Horder. intros h kh Hh Hkh.
    destruct h as [|[|h]]; [| |lia]; simpl in Hkh; simplify_eq; by intros [=].
Defined.

(** ** The further properties at work *)


Lemma analyzer_asked_once_per_position_witness :
  exists run,
    worker cyclicContext provideDefinition isCancellationRequested plugin 4 Tgen (pos 20 10) false
    = Some run
    /\ length (analyzerCalls run) = 3
    /\ NoDup (analyzerCalls run).
Proof.
  eexists. split_and!; [vm_compute; reflexivity|reflexivity|].
  eapply (analyzer_asked_once_per_position cyclicContext provideDefinition plugin
            isCancellationRequested 4 Tgen (pos 20 10) false).
  vm_compute; reflexivity.
Defined.

Lemma analyzer_asked_at_seed_then_mirrors_witness :
  exists run,
    worker context provideDefinition isCancellationRequested plugin 3 Tgen (pos 20 10) false
    = Some run
    /\ (analyzerCalls run = []
        \/ exists calls,
             analyzerCalls run = (uri Tgen, pos 20 10) :: calls
             /\ Forall (fun pair =>
                          exists definition lcm,
                            linkedCodeMapOf context definition = Returned (Some lcm)
                            /\ pair.1 = uri (lcm_document lcm)
                            /\ pair.2 ∈ getLinkedCodePositions lcm
                                          (start (targetSelectionRange definition)))
                       calls).
Proof.
  eexists. split; [vm_compute; reflexivity|].
  eapply (analyzer_asked_at_seed_then_mirrors context provideDefinition plugin
            isCancellationRequested 3 Tgen (pos 20 10) false).
  vm_compute; reflexivity.
Defined.


Lemma worker_without_api_witness :
  pluginApi plugin provideImplementation = None
  /\ worker context provideImplementation isCancellationRequested plugin 1 Tgen (pos 20 10) false
     = Some (mkWorkerRun (Returned (Some [])) false []).
Proof.
  split; [reflexivity|].
  exact (worker_without_api context provideImplementation plugin isCancellationRequested
           0 Tgen (pos 20 10) false eq_refl eq_refl).
Defined.

Lemma worker_without_linked_code_witness :
  remoteAnalyzer Tgen (pos 20 10) false = ([C3; C4], false)
  /\ Forall (fun definition => linkedCodeMapOf context definition = Returned None) [C3; C4]
  /\ worker context provideDefinition isCancellationRequested (pluginWith remoteAnalyzer)
       1 Tgen (pos 20 10) false
     = Some (mkWorkerRun (Returned (Some [C3; C4])) false [(uri Tgen, pos 20 10)]).
Proof.
  assert (Forall (fun definition => linkedCodeMapOf context definition = Returned None)
            [C3; C4])
    as Hplain by (repeat constructor; vm_compute; reflexivity).
  split_and!; [reflexivity|exact Hplain|].
  exact (worker_without_linked_code context provideDefinition (pluginWith remoteAnalyzer)
           isCancellationRequested remoteAnalyzer 0 Tgen (pos 20 10) false [C3; C4] false
           eq_refl eq_refl eq_refl Hplain).
Defined.

Lemma projection_kind_matters_only_when_unmapped_witness :
  virtualCodeOf context (targetUri C2) = Returned (Some (URI_toString T))
  /\ is_Some (getSourceRange (documents_getSourceMap context (URI_toString T))
                             (targetSelectionRange C2))
  /\ projectLink context provideDefinition T (pos 5 3) None C2
     = projectLink context provideImplementation T (pos 5 3) None C2.
Proof.
  assert (virtualCodeOf context (targetUri C2) = Returned (Some (URI_toString T))) as Hvf
    by (vm_compute; reflexivity).
  assert (is_Some (getSourceRange (documents_getSourceMap context (URI_toString T))
                                  (targetSelectionRange C2))) as Hmapped
    by (eexists; vm_compute; reflexivity).
  split_and!; [exact Hvf|exact Hmapped|].
  apply (proj1 (projection_kind_matters_only_when_unmapped context T (pos 5 3) None C2)).
  right. left. by exists (URI_toString T).
Defined.

Lemma plain_links_pass_through_witness :
  virtualCodeOf context (targetUri plainLink) = Returned None
  /\ project context provideDefinition T (pos 5 3) [plainLink; plainLink] (Some TgenSourceMap)
     = Returned [plainLink; plainLink].
Proof.
  assert (virtualCodeOf context (targetUri plainLink) = Returned None) as Hplain
    by (vm_compute; reflexivity).
  split; [exact Hplain|].
  apply (plain_links_pass_through context T (pos 5 3) provideDefinition
           (Some TgenSourceMap) [plainLink; plainLink]).
  constructor; [by split; [|left]|]. constructor; [by split; [|left]|]. constructor.
Defined.

Lemma embedded_scheme_decodes_or_throws_witness :
  scheme unparsableUri = languageService.embeddedContentScheme
  /\ decodeURIComponent (authority unparsableUri) = Returned "ts"
  /\ decodeURIComponent (substring1 (path unparsableUri)) = Returned "a b:x"
  /\ URI_parse "a b:x" = Raised
  /\ languageService.decodeEmbeddedDocumentUri unparsableUri = Raised
  /\ languageService.decodeEmbeddedDocumentUri brokenUri = Raised.
Proof.
  split_and!; [reflexivity..| |].
  - apply (proj2 (proj2 (embedded_scheme_decodes_or_throws unparsableUri eq_refl))).
    right. right. by exists "a b:x".
  - apply (proj2 (proj2 (embedded_scheme_decodes_or_throws brokenUri eq_refl))).
    right. by left.
Defined.

Lemma percentEncode_inj s1 s2 encoded :
  encodeURIComponent s1 = Returned encoded ->
  encodeURIComponent s2 = Returned encoded -> s1 = s2.
Proof.
  simpl. intros [= <-] [= Heq].
  apply (f_equal percentDecode) in Heq.
  rewrite !percentDecode_percentEncode in Heq. by injection Heq.
Qed.

Lemma encode_embedded_uri_injective_witness :
  exists embedded,
    languageService.encodeEmbeddedDocumentUri O "Script_TS/1" = Returned embedded
    /\ forall documentUri embeddedContentId,
         languageService.encodeEmbeddedDocumentUri documentUri embeddedContentId
         = Returned embedded ->
         embeddedContentId = "Script_TS/1"
         /\ URI_toString documentUri = URI_toString O.
Proof.
  eexists. split; [vm_compute; reflexivity|].
  intros documentUri embeddedContentId Hencoded.
  eapply (encode_embedded_uri_injective documentUri embeddedContentId O "Script_TS/1");
    [exact percentEncode_inj|exact Hencoded|vm_compute; reflexivity].
Defined.

Lemma documents_get_again_witness :
  exists doc c1,
    languageService.documents_get printUri languageService.emptyCache T "vue" snapshotA
    = (doc, c1)
    /\ languageService.documents_get printUri c1 T "typescript"
         (languageService.mkSnapshot 1 "other text")
       = (doc, c1).
Proof.
  eexists _, _. split; [vm_compute; reflexivity|].
  eapply (documents_get_again printUri languageService.emptyCache T "vue" snapshotA);
    [vm_compute; reflexivity|reflexivity|reflexivity].
Defined.

Lemma documents_get_frame_witness :
  exists doc c1,
    languageService.documents_get printUri languageService.emptyCache T "vue" snapshotA
    = (doc, c1)
    /\ default 0 (languageService.documentVersions c1 !! printUri O) = 0
    /\ default 0 (languageService.documentVersions c1 !! printUri T) = 1.
Proof.
  destruct (languageService.documents_get printUri languageService.emptyCache T "vue" snapshotA)
    as [doc c1] eqn:Hget.
  exists doc, c1. split; [reflexivity|].
  destruct (documents_get_frame printUri languageService.emptyCache T "vue" snapshotA doc c1 Hget)
    as (Hcounters & _ & Hown).
  split.
  - rewrite (Hcounters (printUri O)); [reflexivity|]. by vm_compute.
  - rewrite Hown. reflexivity.
Defined.

Lemma versions_have_no_gaps_witness :
  requests !! 2 = Some (languageService.mkGetCall T "vue" snapshotB)
  /\ (languageService.getAll printUri languageService.emptyCache requests).1 !! 2
     = Some (mkTextDocument "file:///T.vue" "vue" 1 "b")
  /\ exists i k0 doc0,
       i < 2 /\ requests !! i = Some k0
       /\ (languageService.getAll printUri languageService.emptyCache requests).1 !! i
          = Some doc0
       /\ printUri (languageService.call_uri k0) = printUri T
       /\ version doc0 = 0.
Proof.
  assert ((languageService.getAll printUri languageService.emptyCache requests).1 !! 2
          = Some (mkTextDocument "file:///T.vue" "vue" 1 "b")) as Hdoc by (by vm_compute).
  split_and!; [reflexivity|exact Hdoc|].
  apply (versions_have_no_gaps printUri requests 2
           (languageService.mkGetCall T "vue" snapshotB)
           (mkTextDocument "file:///T.vue" "vue" 1 "b") 0 eq_refl Hdoc).
  simpl. lia.
Defined.

Lemma document_is_of_first_request_witness :
  (languageService.mkGetCall T "typescript" (languageService.mkSnapshot 1 "edited")
   :: requests) !! 4
  = Some (languageService.mkGetCall T "vue" snapshotA)
  /\ (languageService.getAll printUri languageService.emptyCache
        (languageService.mkGetCall T "typescript" (languageService.mkSnapshot 1 "edited")
         :: requests)).1 !! 4
     = Some (mkTextDocument "file:///T.vue" "typescript" 0 "edited")
  /\ exists i k0,
       i <= 4
       /\ (languageService.mkGetCall T "typescript" (languageService.mkSnapshot 1 "edited")
           :: requests) !! i = Some k0
       /\ languageService.snapshot_identity (languageService.call_snapshot k0) = 1%positive
       /\ printUri (languageService.call_uri k0) = printUri T
       /\ "typescript" = languageService.call_languageId k0
       /\ "edited" = languageService.snapshot_text (languageService.call_snapshot k0).
Proof.
  assert ((languageService.getAll printUri languageService.emptyCache
             (languageService.mkGetCall T "typescript" (languageService.mkSnapshot 1 "edited")
              :: requests)).1 !! 4
          = Some (mkTextDocument "file:///T.vue" "typescript" 0 "edited")) as Hdoc
    by (by vm_compute).
  split_and!; [reflexivity|exact Hdoc|].
  destruct (document_is_of_first_request printUri
              (languageService.mkGetCall T "typescript"
                 (languageService.mkSnapshot 1 "edited") :: requests)
              4 (languageService.mkGetCall T "vue" snapshotA)
              (mkTextDocument "file:///T.vue" "typescript" 0 "edited") eq_refl Hdoc)
    as (i & k0 & Hle & Hcall & Hsnapshot & Hkey & _ & _ & Hlanguage & Htext).
  by exists i, k0.
Defined.

Lemma getSourceMap_memoizes_witness :
  exists wrapped s1,
    documents.getSourceMap printUri maps_get scripts_fromVirtualCode
      documents.emptyService TgenCode = Returned (wrapped, s1)
    /\ documents.wrapped_virtualCode wrapped = TgenCode
    /\ documents.getSourceMap printUri maps_get scripts_fromVirtualCode s1 TgenCodeAgain
       = Returned (wrapped, s1).
Proof.
  eexists _, _. split_and!; [vm_compute; reflexivity|reflexivity|].
  eapply (proj1 (getSourceMap_memoizes printUri maps_get scripts_fromVirtualCode
                   linkedCodeMaps_get documents.emptyService TgenCode _ _ TgenCodeAgain
                   _ eq_refl)).
  Unshelve. vm_compute; reflexivity.
Defined.

Lemma getLinkedCodeMap_memoizes_witness :
  exists wrapped s1,
    documents.getLinkedCodeMap printUri linkedCodeMaps_get documents.emptyService TgenCode T
    = Returned (Some wrapped, s1)
    /\ documents.getLinkedCodeMap printUri linkedCodeMaps_get s1 TgenCode O
       = Returned (Some wrapped, s1)
    /\ documents.getLinkedCodeMap printUri linkedCodeMaps_get s1 TgenCodeAgain T
       = Returned (None, s1).
Proof.
  destruct (documents.getLinkedCodeMap printUri linkedCodeMaps_get documents.emptyService
              TgenCode T) as [[[wrapped|] s1]|] eqn:Hfirst;
    [|by vm_compute in Hfirst..].
  exists wrapped, s1.
  destruct (getLinkedCodeMap_memoizes printUri linkedCodeMaps_get documents.emptyService
              TgenCode T wrapped s1 Hfirst) as [Hagain Hnone].
  split_and!; [reflexivity| |].
  - exact (Hagain TgenCode O eq_refl).
  - exact (Hnone s1 TgenCodeAgain T eq_refl).
Defined.

Lemma wrappers_share_the_generated_document_witness :
  exists linked s1 wrapped s2,
    documents.getLinkedCodeMap printUri linkedCodeMaps_get documents.emptyService TgenCode
      (documents.script_id (scripts_fromVirtualCode TgenCode))
    = Returned (Some linked, s1)
    /\ documents.getSourceMap printUri maps_get scripts_fromVirtualCode s1 TgenCode
       = Returned (wrapped, s2)
    /\ documents.wrapped_embeddedDocument wrapped = documents.linked_document linked
    /\ version (documents.linked_document linked) = 0.
Proof.
  destruct (documents.getLinkedCodeMap printUri linkedCodeMaps_get documents.emptyService
              TgenCode (documents.script_id (scripts_fromVirtualCode TgenCode)))
    as [[[linked|] s1]|] eqn:Hlinked; [|by vm_compute in Hlinked..].
  destruct (documents.getSourceMap printUri maps_get scripts_fromVirtualCode s1 TgenCode)
    as [[wrapped s2]|] eqn:Hwrapped;
    [|vm_compute in Hlinked; injection Hlinked as <- <-; by vm_compute in Hwrapped].
  exists linked, s1, wrapped, s2. split_and!; [reflexivity|exact Hwrapped| |].
  - refine (proj1 (wrappers_share_the_generated_document printUri maps_get
                     scripts_fromVirtualCode linkedCodeMaps_get documents.emptyService
                     TgenCode linked s1 wrapped s2 _ eq_refl Hlinked Hwrapped)).
    intros map _. reflexivity.
  - vm_compute in Hlinked. by injection Hlinked as <- <-.
Defined.

Lemma inject_first_enabled_provider_witness :
  inject injectables {[2%positive]} "double" 5 = Some 11
  /\ inject injectables ∅ "double" 5 = Some 10
  /\ inject injectables ∅ "triple" 5 = None.
Proof.
  split_and!.
  - apply (proj2 (inject_first_enabled_provider injectables {[2%positive]} "double" 5 11)).
    exists [mkInjectablePlugin 1%positive None;
            mkInjectablePlugin 2%positive (Some {["double" := fun n => 2 * n]})],
           (mkInjectablePlugin 3%positive (Some {["double" := fun n => n + n + 1]})),
           [], {["double" := fun n => n + n + 1]}, (fun n => n + n + 1).
    split_and!; [reflexivity| |by vm_compute|reflexivity|reflexivity|reflexivity].
    constructor; [by right|]. constructor; [left; by apply elem_of_singleton|].
    constructor.
  - apply (proj2 (inject_first_enabled_provider injectables ∅ "double" 5 10)).
    exists [mkInjectablePlugin 1%positive None],
           (mkInjectablePlugin 2%positive (Some {["double" := fun n => 2 * n]})),
           [mkInjectablePlugin 3%positive (Some {["double" := fun n => n + n + 1]})],
           {["double" := fun n => 2 * n]}, (fun n => 2 * n).
    split_and!; [reflexivity| |apply not_elem_of_empty|reflexivity|reflexivity|reflexivity].
    constructor; [by right|]. constructor.
  - reflexivity.
Defined.

Lemma command_recognisers_are_exclusive_witness :
  commands.rename_is (commands.rename_create T (pos 5 3)) = true
  /\ commands.showReferences_is (commands.rename_create T (pos 5 3)) = false
  /\ commands.setSelection_is (commands.rename_create T (pos 5 3)) = false.
Proof.
  destruct command_recognisers_are_exclusive as (Hown & _ & _ & Hothers & _ & _).
  split; [exact (Hown T (pos 5 3))|].
  exact (Hothers (commands.rename_create T (pos 5 3)) (Hown T (pos 5 3))).
Defined.

Lemma setSelection_is_one_based_witness :
  commands.arguments (commands.setSelection_create (pos 0 0))
  = [commands.SelectionArgument (commands.mkSelection 1 1 1 1)]
  /\ forall position',
       commands.setSelection_create (pos 0 0) = commands.setSelection_create position' ->
       pos 0 0 = position'.
Proof.
  split; [reflexivity|].
  exact (proj2 (setSelection_is_one_based (pos 0 0))).
Defined.

Lemma showReferences_title_counts_witness :
  commands.title (commands.showReferences_create T (pos 5 3) [pointLocation "a" (pos 0 0)])
  = "1 reference"
  /\ commands.title (commands.showReferences_create T (pos 5 3) []) = "0 references"
  /\ forall locations',
       commands.title (commands.showReferences_create T (pos 5 3) []) 
       = commands.title (commands.showReferences_create O (pos 0 0) locations') ->
       length (@nil Location) = length locations'.
Proof.
  split_and!; [|reflexivity|].
  - apply (proj1 (showReferences_title_counts T (pos 5 3) [pointLocation "a" (pos 0 0)])).
    reflexivity.
  - intros locations'.
    exact (proj2 (showReferences_title_counts T (pos 5 3) []) O (pos 0 0) locations').
Defined.

Lemma semantic_token_legend_is_duplicate_free_witness :
  getSemanticTokenLegend pluginCapabilities
  = mkLegend ["class"; "variable"; "function"] ["readonly"; "static"]
  /\ NoDup (tokenTypes (getSemanticTokenLegend pluginCapabilities))
  /\ tokenTypes (getSemanticTokenLegend (take 2 pluginCapabilities))
       `prefix_of` tokenTypes (getSemanticTokenLegend
                                (take 2 pluginCapabilities ++ drop 2 pluginCapabilities)).
Proof.
  split_and!; [by vm_compute| |].
  - exact (proj1 (semantic_token_legend_is_duplicate_free pluginCapabilities)).
  - destruct (semantic_token_legend_is_duplicate_free (take 2 pluginCapabilities))
      as (_ & _ & _ & _ & _ & Hprefix).
    exact (proj1 (Hprefix (drop 2 pluginCapabilities))).
Defined.

Lemma trigger_characters_keep_duplicates_witness :
  getTriggerCharacters triggerCapabilities = ["."; "<"; "."]
  /\ length (filter ("." =.) (getTriggerCharacters triggerCapabilities)) = 2
  /\ getSignatureHelpTriggerCharacters triggerCapabilities = ["("].
Proof.
  split_and!; [reflexivity| |reflexivity].
  rewrite (proj1 (proj1 (trigger_characters_keep_duplicates triggerCapabilities) ".")).
  reflexivity.
Defined.

Lemma worker_throws_at_undecodable_target_witness :
  brokenAnalyzer Tgen (pos 20 10) false = ([C3] ++ undecodableLink :: [C1], false)
  /\ linkedCodeMapOf context C3 = Returned None
  /\ linkedCodeMapOf context undecodableLink = Raised
  /\ worker context provideDefinition isCancellationRequested (pluginWith brokenAnalyzer)
       1 Tgen (pos 20 10) false
     = Some (mkWorkerRun Raised false [(uri Tgen, pos 20 10)]).
Proof.
  assert (linkedCodeMapOf context C3 = Returned None) as Hplain
    by (vm_compute; reflexivity).
  assert (linkedCodeMapOf context undecodableLink = Raised) as Hbad
    by (vm_compute; reflexivity).
  split_and!; [reflexivity|exact Hplain|exact Hbad|].
  refine (proj1 (worker_throws_at_undecodable_target context provideDefinition
                   (pluginWith brokenAnalyzer) isCancellationRequested brokenAnalyzer
                   0 Tgen (pos 20 10) false [C3] undecodableLink [C1] false
                   eq_refl eq_refl eq_refl _ Hbad)).
  constructor; [exact Hplain|constructor].
Defined.
